(** * openai-image-gen: a shallow embedding of [scripts/gen.py]

    The script builds a list of prompts, asks a remote image API for one
    picture per prompt (all requests in flight at once on one asyncio event
    loop), writes each picture to the output directory, and finishes with a
    manifest ([prompts.json]) and a gallery page ([index.html]).

    Conventions of the embedding:
    - a Python [str] is a [string]; its characters are the code points
      0..255, for which [str.lower] and [str.isspace] are written out in
      full;
    - a Python [int] is a [Z]; a position produced by [enumerate] is a [nat];
    - a [dict] is a [gmap]; the output directory is a [gmap] from paths to
      file contents;
    - everything the script takes from outside its own source (the remote
      API, the download, the base64 decoder, the random source, the clock)
      is a field of the record [Env];
    - the coroutines of [asyncio.gather] are small state machines stepped by
      a schedule, so that every interleaving of the requests is covered. *)

From Stdlib Require Import Ascii String ZArith NArith DecimalString DecimalNat.
From Stdlib Require Import Init.Byte.
From stdpp Require Import gmap strings list fin_maps.

Local Open Scope string_scope.

(** ** Characters *)

Definition code (c : ascii) : N := N_of_ascii c.

Definition in_range (lo hi : N) (c : ascii) : bool :=
  ((lo <=? code c) && (code c <=? hi))%N.

Definition is_digit (c : ascii) : bool := in_range 48 57 c.
Definition is_lower_az (c : ascii) : bool := in_range 97 122 c.
Definition is_upper_AZ (c : ascii) : bool := in_range 65 90 c.

(** The character class [[a-z0-9]] of the two regular expressions. *)
Definition is_az09 (c : ascii) : bool := is_lower_az c || is_digit c.

Definition dash : ascii := "-"%char.
Definition is_dash (c : ascii) : bool := (code c =? 45)%N.

(** An ASCII letter or digit, in either case. *)
Definition is_alnum (c : ascii) : bool :=
  is_lower_az c || is_upper_AZ c || is_digit c.

(** [str.lower] on one code point below 256: A-Z, and the Latin-1 capitals
    (192..222 without the multiplication sign 215), move up by 32. *)
Definition lower_char (c : ascii) : ascii :=
  if is_upper_AZ c || (in_range 192 222 c && negb (code c =? 215)%N)
  then ascii_of_N (code c + 32)
  else c.

(** [str.isspace] on one code point below 256. *)
Definition is_space (c : ascii) : bool :=
  in_range 9 13 c || in_range 28 32 c || (code c =? 133)%N || (code c =? 160)%N.

(** ** String helpers of the Python runtime *)

(** [s.lstrip(chars)]: drop the leading characters that satisfy [p]. *)
Fixpoint lstrip (p : ascii -> bool) (s : list ascii) : list ascii :=
  match s with
  | [] => []
  | c :: s' => if p c then lstrip p s' else s
  end.

(** [s.rstrip(chars)]: drop the trailing characters that satisfy [p]. *)
Fixpoint rstrip (p : ascii -> bool) (s : list ascii) : list ascii :=
  match s with
  | [] => []
  | c :: s' =>
      match rstrip p s' with
      | [] => if p c then [] else [c]
      | r => c :: r
      end
  end.

(** [s.strip(chars)]. *)
Definition strip (p : ascii -> bool) (s : list ascii) : list ascii :=
  rstrip p (lstrip p s).

(** [re.sub(r"[^a-z0-9]+", "-", s)]: every maximal run of characters outside
    [[a-z0-9]] becomes one dash. [in_run] tells that the run the scanner is
    in has already produced its dash. *)
Fixpoint sub_non_az09 (in_run : bool) (s : list ascii) : list ascii :=
  match s with
  | [] => []
  | c :: s' =>
      if is_az09 c then c :: sub_non_az09 false s'
      else if in_run then sub_non_az09 true s'
      else dash :: sub_non_az09 true s'
  end.

(** [re.sub(r"-{2,}", "-", s)]: every maximal run of two or more dashes
    becomes one dash; a single dash stays. *)
Fixpoint sub_dashes (s : list ascii) : list ascii :=
  match s with
  | [] => []
  | c :: s' =>
      if is_dash c then
        match s' with
        | c' :: _ => if is_dash c' then sub_dashes s' else c :: sub_dashes s'
        | [] => [c]
        end
      else c :: sub_dashes s'
  end.

(** [x or default] on strings: the empty string is falsy. *)
Definition str_or (s default : list ascii) : list ascii :=
  match s with
  | [] => default
  | _ => s
  end.

(** ** [slugify] (gen.py, lines 54-58) *)

Definition slugify_chars (text : list ascii) : list ascii :=
  let text := strip is_space (map lower_char text) in
  let text := sub_non_az09 false text in
  let text := strip is_dash (sub_dashes text) in
  str_or text (list_ascii_of_string "image").

Definition slugify (text : string) : string :=
  string_of_list_ascii (slugify_chars (list_ascii_of_string text)).

(** ** Formatting and file names *)

(** [str(n)] for a non-negative integer. *)
Definition decimal (n : nat) : string := NilEmpty.string_of_uint (Nat.to_uint n).

Fixpoint zeros (k : nat) : string :=
  match k with
  | O => ""
  | S k' => String "0" (zeros k')
  end.

(** The format specification [{idx:03d}]: decimal digits, padded on the left
    with zeros up to width 3 (wider numbers are not cut). *)
Definition format_03d (idx : nat) : string :=
  let digits := decimal idx in
  zeros (3 - String.length digits) +:+ digits.

(** The slice [s[:n]]. *)
Fixpoint str_take (n : nat) (s : string) : string :=
  match n, s with
  | S n', String c s' => String c (str_take n' s')
  | _, _ => ""
  end.

(** [s.startswith(p)]. *)
Definition startswith (s p : string) : bool := String.prefix p s.

(** Truthiness of a value of type [str | None]. *)
Definition truthy (o : option string) : bool :=
  match o with
  | Some (String _ _) => true
  | _ => false
  end.

(** gen.py, line 143. *)
Definition filename (idx : nat) (prompt : string) : string :=
  format_03d idx +:+ "-" +:+ str_take 40 (slugify prompt) +:+ ".png".

(** [out_dir / name] of pathlib, for a relative [name]. *)
Definition path_join (out_dir name : string) : string := out_dir +:+ "/" +:+ name.

(** ** Configuration (gen.py, lines 37-51 and 233-245) *)

Record AppConfig := {
  cfg_prompt : option string;
  cfg_count : Z;
  cfg_model : string;
  cfg_size : string;
  cfg_quality : string;
  cfg_out_dir : option string
}.

(** The namespace returned by [ap.parse_args()]. *)
Record Args := {
  arg_prompt : option string;
  arg_count : Z;
  arg_model : string;
  arg_size : string;
  arg_quality : string;
  arg_out_dir : string
}.

(** The defaults of the argument parser. *)
Definition default_args : Args :=
  {| arg_prompt := None; arg_count := 8; arg_model := "gpt-image-1-mini";
     arg_size := "1024x1024"; arg_quality := "high"; arg_out_dir := "" |}.

(** [AppConfig(...)]: the only constraint the fields carry is
    [count: int = Field(8, ge=1, le=50)]; [None] stands for the raised
    validation error. *)
Definition validate (args : Args) : option AppConfig :=
  if ((1 <=? arg_count args) && (arg_count args <=? 50))%Z then
    Some {| cfg_prompt := arg_prompt args;
            cfg_count := arg_count args;
            cfg_model := arg_model args;
            cfg_size := arg_size args;
            cfg_quality := arg_quality args;
            cfg_out_dir := if truthy (Some (arg_out_dir args))
                           then Some (arg_out_dir args) else None |}
  else None.

(** ** The request sent to the API (gen.py, lines 124-134) *)

Inductive pyval :=
| PStr (s : string)
| PInt (n : Z).

Definition build_params (config : AppConfig) (prompt : string) : gmap string pyval :=
  let params : gmap string pyval :=
    <["n" := PInt 1]>
      (<["quality" := PStr (cfg_quality config)]>
         (<["size" := PStr (cfg_size config)]>
            (<["prompt" := PStr prompt]>
               (<["model" := PStr (cfg_model config)]> ∅)))) in
  if startswith (cfg_model config) "dall-e"
  then <["response_format" := PStr "b64_json"]> params
  else params.

(** ** The outside world *)

(** One entry of [response.data]. *)
Record Image := {
  b64_json : option string;
  url : option string
}.

(** The ["data"] entry of [response.model_dump()]. *)
Inductive DataField :=
| DataAbsent
| DataNone
| DataList (l : list Image).

Inductive GenerateOutcome :=
| GenRaises (openai_error : bool) (msg : string)
| GenReturns (data : DataField).

Inductive GetOutcome :=
| GetRaises (msg : string)
| GetReturns (status_code : Z) (content : list Byte.byte).

Record Env := {
  (** [OPENAI_API_KEY] and [OPENAI_BASE_URL] as [Settings()] finds them *)
  env_api_key : option string;
  env_base_url : option string;
  (** what the call of [client.images.generate] does for request [idx] *)
  images_generate : nat -> gmap string pyval -> GenerateOutcome;
  (** what [http_client.get(url, follow_redirects=True)] does for request [idx] *)
  http_get : nat -> string -> GetOutcome;
  (** [base64.b64decode]; [None] when it raises *)
  b64decode : string -> option (list Byte.byte);
  (** the raw numbers behind successive [random.choice] calls *)
  random_draw : nat -> nat;
  (** the base directory and the time stamp used by [default_out_dir()] *)
  env_base_dir : string;
  env_now : string
}.

(** A record of the manifest: [{"prompt": prompt, "file": filename}]. *)
Record Item := {
  item_prompt : string;
  item_file : string
}.

Inductive FileData :=
| ImageBytes (png : list Byte.byte)
| ManifestJson (items : list Item)
| GalleryHtml (out_dir : string) (items : list Item).

Inductive LogLine :=
| ConfigurationError
| InvalidArguments
| OutputDirectory (path : string)
| OpenAIErrorFor (idx : nat) (msg : string)
| ErrorFor (idx : nat) (msg : string)
| NoImageData (prompt20 : string)
| GalleryCreated (path : string).

(** Everything the script can change. Lists grow at the head. *)
Record World := {
  fs : gmap string FileData;
  dirs : list string;
  console : list LogLine;
  description : string;
  total : option nat;
  completed : nat;
  api_calls : list (nat * gmap string pyval);
  downloads : list (nat * string);
  rng_pos : nat
}.

Definition empty_world : World :=
  {| fs := ∅; dirs := []; console := []; description := ""; total := None;
     completed := 0; api_calls := []; downloads := []; rng_pos := 0 |}.

Definition with_fs (f : gmap string FileData) (w : World) : World :=
  {| fs := f; dirs := dirs w; console := console w; description := description w;
     total := total w; completed := completed w; api_calls := api_calls w;
     downloads := downloads w; rng_pos := rng_pos w |}.

(** [path.write_bytes(data)] and [path.write_text(data)]. *)
Definition write_file (path : string) (data : FileData) (w : World) : World :=
  with_fs (<[path := data]> (fs w)) w.

(** [path.mkdir(parents=True, exist_ok=True)]. *)
Definition mkdir (path : string) (w : World) : World :=
  {| fs := fs w; dirs := path :: dirs w; console := console w;
     description := description w; total := total w; completed := completed w;
     api_calls := api_calls w; downloads := downloads w; rng_pos := rng_pos w |}.

(** [console.print(...)]. *)
Definition print (line : LogLine) (w : World) : World :=
  {| fs := fs w; dirs := dirs w; console := line :: console w;
     description := description w; total := total w; completed := completed w;
     api_calls := api_calls w; downloads := downloads w; rng_pos := rng_pos w |}.

(** [progress.add_task(description, total=n)]. *)
Definition add_task (d : string) (n : nat) (w : World) : World :=
  {| fs := fs w; dirs := dirs w; console := console w;
     description := d; total := Some n; completed := 0;
     api_calls := api_calls w; downloads := downloads w; rng_pos := rng_pos w |}.

(** [progress.update(task_id, description=d)]. *)
Definition progress_update (d : string) (w : World) : World :=
  {| fs := fs w; dirs := dirs w; console := console w;
     description := d; total := total w; completed := completed w;
     api_calls := api_calls w; downloads := downloads w; rng_pos := rng_pos w |}.

(** [progress.advance(task_id)]. *)
Definition progress_advance (w : World) : World :=
  {| fs := fs w; dirs := dirs w; console := console w;
     description := description w; total := total w; completed := S (completed w);
     api_calls := api_calls w; downloads := downloads w; rng_pos := rng_pos w |}.

(** The request leaves for the API. *)
Definition send_generate (idx : nat) (params : gmap string pyval) (w : World) : World :=
  {| fs := fs w; dirs := dirs w; console := console w;
     description := description w; total := total w; completed := completed w;
     api_calls := (idx, params) :: api_calls w; downloads := downloads w;
     rng_pos := rng_pos w |}.

(** The download request leaves. *)
Definition send_get (idx : nat) (u : string) (w : World) : World :=
  {| fs := fs w; dirs := dirs w; console := console w;
     description := description w; total := total w; completed := completed w;
     api_calls := api_calls w; downloads := (idx, u) :: downloads w;
     rng_pos := rng_pos w |}.

(** [random.choice(seq)]; the sequences of the script are never empty. *)
Definition random_choice (E : Env) (seq : list string) (w : World) : string * World :=
  (nth (random_draw E (rng_pos w) mod length seq) seq "",
   {| fs := fs w; dirs := dirs w; console := console w;
      description := description w; total := total w; completed := completed w;
      api_calls := api_calls w; downloads := downloads w;
      rng_pos := S (rng_pos w) |}).

(** ** The prompt source (gen.py, lines 69-106 and 256) *)

Definition subjects : list string :=
  [ "a lobster astronaut"; "a brutalist lighthouse"; "a cozy reading nook";
    "a cyberpunk noodle shop"; "a Vienna street at dusk";
    "a minimalist product photo"; "a surreal underwater library";
    "a futuristic solarpunk city"; "a retro vaporwave landscape" ].

Definition styles : list string :=
  [ "ultra-detailed studio photo"; "35mm film still"; "isometric illustration";
    "editorial photography"; "soft watercolor"; "architectural render";
    "high-contrast monochrome"; "low-poly 3d render"; "oil painting" ].

Definition lighting : list string :=
  [ "golden hour"; "overcast soft light"; "neon lighting"; "dramatic rim light";
    "candlelight"; "foggy atmosphere"; "bioluminescent glow" ].

(** The body of [for _ in range(count)]: the three choices are made from
    left to right, as the f-string evaluates them. *)
Fixpoint pick_prompts_loop (E : Env) (n : nat) (w : World) : list string * World :=
  match n with
  | O => ([], w)
  | S n' =>
      let '(style, w1) := random_choice E styles w in
      let '(subject, w2) := random_choice E subjects w1 in
      let '(light, w3) := random_choice E lighting w2 in
      let '(rest, w4) := pick_prompts_loop E n' w3 in
      ((style +:+ " of " +:+ subject +:+ ", " +:+ light) :: rest, w4)
  end.

Definition pick_prompts (E : Env) (count : Z) (w : World) : list string * World :=
  pick_prompts_loop E (Z.to_nat count) w.

(** Line 256:
    [[config.prompt] * config.count if config.prompt else pick_prompts(config.count)]. *)
Definition select_prompts (E : Env) (config : AppConfig) (w : World)
  : list string * World :=
  match cfg_prompt config with
  | Some p =>
      if truthy (Some p) then (replicate (Z.to_nat (cfg_count config)) p, w)
      else pick_prompts E (cfg_count config) w
  | None => pick_prompts E (cfg_count config) w
  end.

(** ** The image fetcher [request_image] (gen.py, lines 109-165) *)

(** Where the coroutine of one request stands. It is suspended at most twice:
    at [await client.images.generate] and at [await http_client.get]. *)
Inductive Coroutine :=
| Created
| AwaitGenerate
| AwaitGet (file : string) (u : string)
| Returned (r : option Item).

(** [resp.raise_for_status()] passes for the codes 200..299. *)
Definition is_success (status_code : Z) : bool :=
  ((200 <=? status_code) && (status_code <=? 299))%Z.

(** The two [except] clauses, followed by lines 164-165. *)
Definition on_exception (idx : nat) (openai_error : bool) (msg : string) (w : World)
  : Coroutine * World :=
  let line := if openai_error then OpenAIErrorFor idx msg else ErrorFor idx msg in
  (Returned None, progress_advance (print line w)).

(** [write_bytes] of the picture, then lines 156-157. *)
Definition save_image (out_dir file prompt : string) (png : list Byte.byte) (w : World)
  : Coroutine * World :=
  let w1 := write_file (path_join out_dir file) (ImageBytes png) w in
  (Returned (Some {| item_prompt := prompt; item_file := file |}), progress_advance w1).

(** Lines 138-157, once the API has answered with [data]. *)
Definition on_response (E : Env) (out_dir : string) (idx : nat) (prompt : string)
    (data : DataField) (w : World) : Coroutine * World :=
  let first :=
    match data with
    | DataAbsent => inr {| b64_json := None; url := None |}
    | DataNone => inl "NoneType object is not subscriptable"
    | DataList [] => inl "list index out of range"
    | DataList (data_item :: _) => inr data_item
    end in
  match first with
  | inl msg => on_exception idx false msg w
  | inr data_item =>
      let b64 := b64_json data_item in
      let u := url data_item in
      let file := filename idx prompt in
      if truthy b64 then
        match b64decode E (default "" b64) with
        | Some png => save_image out_dir file prompt png w
        | None => on_exception idx false "Incorrect padding" w
        end
      else if truthy u then
        (AwaitGet file (default "" u), send_get idx (default "" u) w)
      else
        (Returned None, print (NoImageData (str_take 20 prompt)) w)
  end.

(** One run of the coroutine from where it stands to its next suspension
    or to its return. *)
Definition resume (E : Env) (config : AppConfig) (out_dir : string) (idx : nat)
    (prompt : string) (c : Coroutine) (w : World) : Coroutine * World :=
  match c with
  | Created =>
      let d := "Generating [" +:+ decimal idx +:+ "]: " +:+ str_take 40 prompt +:+ "..." in
      (AwaitGenerate, send_generate idx (build_params config prompt) (progress_update d w))
  | AwaitGenerate =>
      match images_generate E idx (build_params config prompt) with
      | GenRaises openai_error msg => on_exception idx openai_error msg w
      | GenReturns data => on_response E out_dir idx prompt data w
      end
  | AwaitGet file u =>
      match http_get E idx u with
      | GetRaises msg => on_exception idx false msg w
      | GetReturns status_code content =>
          if is_success status_code then save_image out_dir file prompt content w
          else on_exception idx false "HTTPStatusError" w
      end
  | Returned r => (Returned r, w)
  end.

(** What a coroutine hands to [gather] once it has returned. *)
Definition result_of (c : Coroutine) : option Item :=
  match c with
  | Returned r => r
  | _ => None
  end.

(** [await request_image(...)] on its own: the coroutine is resumed until it
    returns, with nothing else running in between. *)
Definition request_image (E : Env) (config : AppConfig) (out_dir : string)
    (idx : nat) (prompt : string) (w : World) : option Item * World :=
  let '(c1, w1) := resume E config out_dir idx prompt Created w in
  let '(c2, w2) := resume E config out_dir idx prompt c1 w1 in
  let '(c3, w3) := resume E config out_dir idx prompt c2 w2 in
  (result_of c3, w3).

(** ** The batch orchestrator (gen.py, lines 266-271) *)

(** The event loop resumes the coroutine at position [i] of the batch; the
    request index is [i + 1], as [enumerate(prompts, start=1)] numbers it. *)
Definition resume_nth (E : Env) (config : AppConfig) (out_dir : string)
    (prompts : list string) (i : nat) (st : list Coroutine * World)
  : list Coroutine * World :=
  match prompts !! i, st.1 !! i with
  | Some prompt, Some c =>
      let '(c', w') := resume E config out_dir (S i) prompt c st.2 in
      (<[i := c']> st.1, w')
  | _, _ => st
  end.

Definition run_schedule (E : Env) (config : AppConfig) (out_dir : string)
    (prompts : list string) (schedule : list nat) (st : list Coroutine * World)
  : list Coroutine * World :=
  foldl (fun st i => resume_nth E config out_dir prompts i st) st schedule.

(** One round: every coroutine is resumed once, in submission order. *)
Definition round (prompts : list string) : list nat := seq 0 (length prompts).

Definition all_returned (cs : list Coroutine) : bool :=
  forallb (fun c => match c with Returned _ => true | _ => false end) cs.

(** [await asyncio.gather( *tasks)]: the event loop interleaves the coroutines
    as [schedule] says and then keeps resuming them until every one has
    returned (three rounds are enough, see [gather_all_returned]); the results
    come back by position in the batch, whatever the order of completion. *)
Definition gather_state (E : Env) (config : AppConfig) (out_dir : string)
    (prompts : list string) (schedule : list nat) (w : World)
  : list Coroutine * World :=
  let st0 := (replicate (length prompts) Created, w) in
  run_schedule E config out_dir prompts
    (schedule ++ round prompts ++ round prompts ++ round prompts) st0.

Definition gather (E : Env) (config : AppConfig) (out_dir : string)
    (prompts : list string) (schedule : list nat) (w : World)
  : list (option Item) * World :=
  let st := gather_state E config out_dir prompts schedule w in
  (map result_of st.1, st.2).

(** [[r for r in results if r is not None]]. *)
Definition successes (results : list (option Item)) : list Item :=
  omap id results.

(** Lines 266-271 as a whole. *)
Definition run_batch (E : Env) (config : AppConfig) (out_dir : string)
    (prompts : list string) (schedule : list nat) (w : World) : list Item * World :=
  let '(results, w') := gather E config out_dir prompts schedule w in
  (successes results, w').

(** ** The result writer and [async_main] (gen.py, lines 168-277) *)

Definition write_gallery (out_dir : string) (items : list Item) (w : World) : World :=
  write_file (path_join out_dir "index.html") (GalleryHtml out_dir items) w.

(** gen.py, lines 61-66. *)
Definition default_out_dir (E : Env) (w : World) : string * World :=
  (path_join (env_base_dir E) ("openai-image-gen-" +:+ env_now E),
   mkdir (env_base_dir E) w).

(** Step 5 of [async_main]: choose and create the output directory. *)
Definition prepare_output (E : Env) (config : AppConfig) (w : World) : string * World :=
  let '(out_dir, w1) :=
    match cfg_out_dir config with
    | Some d => (d, w)
    | None => default_out_dir E w
    end in
  (out_dir, print (OutputDirectory out_dir) (mkdir out_dir w1)).

(** The function returns the exit code of the process. [schedule] is the
    interleaving the event loop happens to choose. *)
Definition async_main (E : Env) (args : Args) (schedule : list nat) (w : World)
  : Z * World :=
  match env_api_key E with
  | None => (1%Z, print ConfigurationError w)
  | Some _ =>
      match validate args with
      | None => (2%Z, print InvalidArguments w)
      | Some config =>
          let '(out_dir, w2) := prepare_output E config w in
          let '(prompts, w3) := select_prompts E config w2 in
          let w4 := add_task "Generating images..." (length prompts) w3 in
          let '(items, w5) := run_batch E config out_dir prompts schedule w4 in
          let w6 := write_file (path_join out_dir "prompts.json") (ManifestJson items) w5 in
          let w7 := write_gallery out_dir items w6 in
          (0%Z, print (GalleryCreated (path_join out_dir "index.html")) w7)
      end
  end.

(** ** Predicates used in the statements *)

(** The alphabet [[a-z0-9-]] of a slug. *)
Definition is_slug_char (c : ascii) : bool := is_az09 c || is_dash c.

Definition starts_with (p : ascii -> bool) (s : list ascii) : bool :=
  match s with
  | c :: _ => p c
  | [] => false
  end.

Fixpoint ends_with (p : ascii -> bool) (s : list ascii) : bool :=
  match s with
  | [] => false
  | [c] => p c
  | _ :: s' => ends_with p s'
  end.

Fixpoint no_double_dash (s : list ascii) : bool :=
  match s with
  | c :: s' => negb (is_dash c && starts_with is_dash s') && no_double_dash s'
  | [] => true
  end.

(** What every slug looks like. *)
Record clean (s : list ascii) : Prop := {
  clean_alphabet : Forall (fun c => is_slug_char c = true) s;
  clean_runs : no_double_dash s = true;
  clean_head : starts_with is_dash s = false;
  clean_last : ends_with is_dash s = false
}.

Fixpoint all_digits (s : string) : bool :=
  match s with
  | EmptyString => true
  | String c s' => is_digit c && all_digits s'
  end.

(** Reading a decimal numeral back, leading zeros included. *)
Definition index_of (s : string) : option nat :=
  option_map Nat.of_uint (NilEmpty.uint_of_string s).

(** The file names of a batch, in submission order. *)
Definition batch_filenames (prompts : list string) : list string :=
  imap (fun i prompt => filename (S i) prompt) prompts.

(** ** A coroutine step as a decision followed by its effect

    [resume] decides what to do from the state of the coroutine and the
    answers of the environment alone, never from the world; [action] is that
    decision, [perform] its effect, [next_state] the state it leads to
    (see [resume_factor]). *)

Inductive Action :=
| Send (d : string) (params : gmap string pyval)
| Raise (openai_error : bool) (msg : string)
| NoData (prompt20 : string)
| Download (u : string)
| Save (file : string) (png : list Byte.byte)
| Idle.

Definition response_action (E : Env) (idx : nat) (prompt : string) (data : DataField)
  : Action :=
  match data with
  | DataNone => Raise false "NoneType object is not subscriptable"
  | DataList [] => Raise false "list index out of range"
  | DataAbsent => NoData (str_take 20 prompt)
  | DataList (data_item :: _) =>
      if truthy (b64_json data_item) then
        match b64decode E (default "" (b64_json data_item)) with
        | Some png => Save (filename idx prompt) png
        | None => Raise false "Incorrect padding"
        end
      else if truthy (url data_item) then Download (default "" (url data_item))
      else NoData (str_take 20 prompt)
  end.

Definition action (E : Env) (config : AppConfig) (idx : nat) (prompt : string)
    (c : Coroutine) : Action :=
  match c with
  | Created =>
      Send ("Generating [" +:+ decimal idx +:+ "]: " +:+ str_take 40 prompt +:+ "...")
           (build_params config prompt)
  | AwaitGenerate =>
      match images_generate E idx (build_params config prompt) with
      | GenRaises openai_error msg => Raise openai_error msg
      | GenReturns data => response_action E idx prompt data
      end
  | AwaitGet file u =>
      match http_get E idx u with
      | GetRaises msg => Raise false msg
      | GetReturns status_code content =>
          if is_success status_code then Save file content
          else Raise false "HTTPStatusError"
      end
  | Returned _ => Idle
  end.

Definition next_state (idx : nat) (prompt : string) (c : Coroutine) (a : Action)
  : Coroutine :=
  match a with
  | Send _ _ => AwaitGenerate
  | Raise _ _ => Returned None
  | NoData _ => Returned None
  | Download u => AwaitGet (filename idx prompt) u
  | Save file _ => Returned (Some {| item_prompt := prompt; item_file := file |})
  | Idle => c
  end.

Definition perform (out_dir : string) (idx : nat) (a : Action) (w : World) : World :=
  match a with
  | Send d params => send_generate idx params (progress_update d w)
  | Raise openai_error msg =>
      progress_advance
        (print (if openai_error then OpenAIErrorFor idx msg else ErrorFor idx msg) w)
  | NoData prompt20 => print (NoImageData prompt20) w
  | Download u => send_get idx u w
  | Save file png => progress_advance (write_file (path_join out_dir file) (ImageBytes png) w)
  | Idle => w
  end.

(** The state of a coroutine after one more resumption. *)
Definition advance (E : Env) (config : AppConfig) (idx : nat) (prompt : string)
    (c : Coroutine) : Coroutine :=
  next_state idx prompt c (action E config idx prompt c).

(** The state after [n] resumptions. *)
Definition after (E : Env) (config : AppConfig) (idx : nat) (prompt : string)
    (n : nat) : Coroutine :=
  Nat.iter n (advance E config idx prompt) Created.

(** What request [idx] returns when it is awaited on its own. *)
Definition outcome (E : Env) (config : AppConfig) (idx : nat) (prompt : string)
  : option Item :=
  (request_image E config "" idx prompt empty_world).1.

(** The picture request [idx] saves, if it saves one. *)
Definition saved_by (a : Action) : option (list Byte.byte) :=
  match a with
  | Save _ png => Some png
  | _ => None
  end.

Definition image_data (E : Env) (config : AppConfig) (idx : nat) (prompt : string)
  : option (list Byte.byte) :=
  match saved_by (action E config idx prompt (after E config idx prompt 1)) with
  | Some png => Some png
  | None => saved_by (action E config idx prompt (after E config idx prompt 2))
  end.

(** How many resumptions a coroutine may still need. *)
Definition rank (c : Coroutine) : nat :=
  match c with
  | Created => 3
  | AwaitGenerate => 2
  | AwaitGet _ _ => 1
  | Returned _ => 0
  end.

Definition returned_some (c : Coroutine) : bool :=
  match c with
  | Returned (Some _) => true
  | _ => false
  end.

(** 1 when the request with index [n] has left for the API, else 0. *)
Definition started (cs : list Coroutine) (n : nat) : nat :=
  match n with
  | O => 0
  | S i =>
      match cs !! i with
      | Some Created | None => 0
      | Some _ => 1
      end
  end.

(** The requests of a batch with their indices, as [enumerate(prompts, start=1)]
    lists them. *)
Definition enumerate (prompts : list string) : list (nat * string) :=
  imap (fun i prompt => (S i, prompt)) prompts.

Definition fails (E : Env) (config : AppConfig) (request : nat * string) : bool :=
  match outcome E config request.1 request.2 with
  | None => true
  | Some _ => false
  end.

(** 1 when the action sends request [j + 1] and [m] is its index. *)
Definition sends (a : Action) (j m : nat) : nat :=
  match a with
  | Send _ _ => if decide (m = S j) then 1 else 0
  | _ => 0
  end.

(** What holds between the coroutines and the world at every moment of a
    batch that started in the world [w0]. *)
Record consistent (E : Env) (config : AppConfig) (out_dir : string)
    (prompts : list string) (w0 : World) (st : list Coroutine * World) : Prop := {
  cons_reach : forall i p c,
    prompts !! i = Some p -> st.1 !! i = Some c ->
    exists n, c = after E config (S i) p n;
  cons_written : forall i p c,
    prompts !! i = Some p -> st.1 !! i = Some c -> returned_some c = true ->
    fs st.2 !! path_join out_dir (filename (S i) p)
    = ImageBytes <$> image_data E config (S i) p;
  cons_kept : forall path,
    (forall i p c, prompts !! i = Some p -> st.1 !! i = Some c ->
                   returned_some c = true ->
                   path <> path_join out_dir (filename (S i) p)) ->
    fs st.2 !! path = fs w0 !! path;
  cons_calls : forall n,
    count_occ Nat.eq_dec (map fst (api_calls st.2)) n
    = count_occ Nat.eq_dec (map fst (api_calls w0)) n + started st.1 n;
  cons_params : forall idx params,
    In (idx, params) (api_calls st.2) ->
    In (idx, params) (api_calls w0) \/
    exists i p, prompts !! i = Some p /\ idx = S i /\ params = build_params config p;
  cons_dirs : dirs st.2 = dirs w0;
  cons_rng : rng_pos st.2 = rng_pos w0
}.

(** ** A sample environment

    The API refuses request 2, answers request 3 with a link whose download
    fails, answers request 4 without any picture, and sends an inline picture
    for every other request. *)
Definition demo_env : Env :=
  {| env_api_key := Some "sk-demo";
     env_base_url := None;
     images_generate := fun idx _ =>
       match idx with
       | 2 => GenRaises true "rate limit"
       | 3 => GenReturns (DataList [{| b64_json := None; url := Some "https://cdn/3" |}])
       | 4 => GenReturns (DataList [{| b64_json := None; url := None |}])
       | _ => GenReturns (DataList [{| b64_json := Some "aGk="; url := None |}])
       end;
     http_get := fun _ _ => GetReturns 503 [];
     b64decode := fun _ => Some [Byte.x68; Byte.x69];
     random_draw := fun n => n;
     env_base_dir := "./tmp";
     env_now := "2026-01-01-00-00-00" |}.

(** An environment in which the API refuses every request. *)
Definition failing_env : Env :=
  {| env_api_key := Some "sk-demo";
     env_base_url := None;
     images_generate := fun _ _ => GenRaises true "service unavailable";
     http_get := fun _ _ => GetRaises "unreachable";
     b64decode := fun _ => None;
     random_draw := fun n => 2 * n;
     env_base_dir := "./tmp";
     env_now := "2026-01-01-00-00-00" |}.

Definition demo_config : AppConfig :=
  {| cfg_prompt := Some "a red bicycle"; cfg_count := 3;
     cfg_model := "gpt-image-1-mini"; cfg_size := "1024x1024";
     cfg_quality := "high"; cfg_out_dir := Some "out" |}.

Definition demo_args : Args :=
  {| arg_prompt := Some "a red bicycle"; arg_count := 3;
     arg_model := "gpt-image-1-mini"; arg_size := "1024x1024";
     arg_quality := "high"; arg_out_dir := "out" |}.

Definition demo_prompts : list string := replicate 3 "a red bicycle".

(** The API has answered request [idx], and its answer carries neither an
    inline picture nor a link. *)
Definition no_picture (E : Env) (config : AppConfig) (idx : nat) (prompt : string)
  : bool :=
  match images_generate E idx (build_params config prompt) with
  | GenReturns DataAbsent => true
  | GenReturns (DataList (data_item :: _)) =>
      negb (truthy (b64_json data_item)) && negb (truthy (url data_item))
  | _ => false
  end.

(** The command line with [--prompt] replaced. *)
Definition set_prompt (o : option string) (args : Args) : Args :=
  {| arg_prompt := o; arg_count := arg_count args; arg_model := arg_model args;
     arg_size := arg_size args; arg_quality := arg_quality args;
     arg_out_dir := arg_out_dir args |}.

(** The configuration built from the command line with an empty [--prompt]
    and [--count 1]. *)
Definition empty_prompt_config : AppConfig :=
  {| cfg_prompt := Some ""; cfg_count := 1; cfg_model := "gpt-image-1-mini";
     cfg_size := "1024x1024"; cfg_quality := "high"; cfg_out_dir := None |}.

(** The shape of a prompt assembled by [pick_prompts]. *)
Definition assembled (prompt : string) : Prop :=
  exists style subject light,
    In style styles /\ In subject subjects /\ In light lighting /\
    prompt = style +:+ " of " +:+ subject +:+ ", " +:+ light.

(** The characters a file name of the script is written in: [[a-z0-9-]] and
    the dot. *)
Definition is_name_char (c : ascii) : bool := is_slug_char c || (code c =? 46)%N.

(** The answer to request [idx] has a link and no inline picture, so that the
    picture has to be downloaded. *)
Definition needs_download (E : Env) (config : AppConfig) (idx : nat) (prompt : string)
  : bool :=
  match images_generate E idx (build_params config prompt) with
  | GenReturns (DataList (data_item :: _)) =>
      negb (truthy (b64_json data_item)) && truthy (url data_item)
  | _ => false
  end.

(** An environment whose answers carry an inline picture that does not
    decode, and a link that would serve. *)
Definition undecodable_env : Env :=
  {| env_api_key := Some "sk-demo";
     env_base_url := None;
     images_generate := fun _ _ =>
       GenReturns (DataList [{| b64_json := Some "%%%"; url := Some "https://cdn/1" |}]);
     http_get := fun _ _ => GetReturns 200 [Byte.x89];
     b64decode := fun _ => None;
     random_draw := fun n => n;
     env_base_dir := "./tmp";
     env_now := "2026-01-01-00-00-00" |}.

(** ** Counting what a batch does

    A counter of the world that every action raises by an amount of its own:
    [cumulative mu ... n] is what the first [n] resumptions of a request add
    to it. *)
Fixpoint cumulative (mu : Action -> nat) (E : Env) (config : AppConfig) (idx : nat)
    (prompt : string) (n : nat) : nat :=
  match n with
  | O => 0
  | S k =>
      cumulative mu E config idx prompt k
      + mu (action E config idx prompt (after E config idx prompt k))
  end.

(** The units of progress an action signals. *)
Definition units_of (a : Action) : nat :=
  match a with
  | Raise _ _ | Save _ _ => 1
  | _ => 0
  end.

(** The lines an action prints. *)
Definition lines_of (a : Action) : nat :=
  match a with
  | Raise _ _ | NoData _ => 1
  | _ => 0
  end.

(** The downloads an action starts. *)
Definition gets_of (a : Action) : nat :=
  match a with
  | Download _ => 1
  | _ => 0
  end.

(** Request [r] of a batch has returned an item whose file is at [path]. *)
Definition owns (E : Env) (config : AppConfig) (out_dir path : string)
    (r : nat * string) : bool :=
  returned_some (after E config r.1 r.2 3)
  && String.eqb path (path_join out_dir (filename r.1 r.2)).


(** * Facts *)

(** ** Characters *)

Ltac all_chars c := destruct c as [[] [] [] [] [] [] [] []]; vm_compute; congruence.

Lemma lower_char_slug c : is_slug_char c = true -> lower_char c = c.
Proof. all_chars c. Qed.

Lemma is_space_slug c : is_slug_char c = true -> is_space c = false.
Proof. all_chars c. Qed.

Lemma is_dash_eq c : is_dash c = true -> c = dash.
Proof. all_chars c. Qed.

Lemma az09_not_dash c : is_az09 c = true -> is_dash c = false.
Proof. all_chars c. Qed.

Lemma slug_not_az09 c : is_slug_char c = true -> is_az09 c = false -> c = dash.
Proof. all_chars c. Qed.

Lemma az09_slug c : is_az09 c = true -> is_slug_char c = true.
Proof. unfold is_slug_char. intros ->. reflexivity. Qed.

Lemma lower_char_not_alnum c : is_alnum c = false -> is_az09 (lower_char c) = false.
Proof. all_chars c. Qed.

(** ** Stripping *)

Lemma lstrip_Forall (P : ascii -> Prop) p s : Forall P s -> Forall P (lstrip p s).
Proof.
  induction 1 as [|c s Hc Hs IH]; simpl; [constructor|].
  destruct (p c); [assumption | constructor; assumption].
Qed.

Lemma rstrip_Forall (P : ascii -> Prop) p s : Forall P s -> Forall P (rstrip p s).
Proof.
  induction 1 as [|c s Hc Hs IH]; simpl; [constructor|].
  destruct (rstrip p s) as [|d r].
  - destruct (p c); repeat constructor; assumption.
  - constructor; assumption.
Qed.

Lemma strip_Forall (P : ascii -> Prop) p s : Forall P s -> Forall P (strip p s).
Proof. intros H. apply rstrip_Forall, lstrip_Forall, H. Qed.

Lemma lstrip_head p s : starts_with p (lstrip p s) = false.
Proof.
  induction s as [|c s IH]; simpl; [reflexivity|].
  destruct (p c) eqn:Hc; [exact IH | simpl; exact Hc].
Qed.

Lemma lstrip_id p s : starts_with p s = false -> lstrip p s = s.
Proof. destruct s as [|c s]; simpl; [reflexivity | intros ->; reflexivity]. Qed.

Lemma rstrip_last p s : ends_with p (rstrip p s) = false.
Proof.
  induction s as [|c s IH]; simpl; [reflexivity|].
  destruct (rstrip p s) as [|d r] eqn:Hr.
  - destruct (p c) eqn:Hc; simpl; [reflexivity | exact Hc].
  - exact IH.
Qed.

Lemma rstrip_id p s : ends_with p s = false -> rstrip p s = s.
Proof.
  induction s as [|c s IH]; simpl; [reflexivity|].
  destruct s as [|d s'].
  - simpl. intros ->. reflexivity.
  - intros H. rewrite (IH H). reflexivity.
Qed.

(** [rstrip] keeps a prefix, so the first character stays where it is. *)
Lemma rstrip_head p q s : starts_with q s = false -> starts_with q (rstrip p s) = false.
Proof.
  destruct s as [|c s]; simpl; [reflexivity|].
  intros Hc. destruct (rstrip p s); [destruct (p c)|]; simpl; auto.
Qed.

Lemma no_double_dash_tail c s : no_double_dash (c :: s) = true -> no_double_dash s = true.
Proof. simpl. intros H. apply andb_prop in H. tauto. Qed.

Lemma lstrip_runs p s : no_double_dash s = true -> no_double_dash (lstrip p s) = true.
Proof.
  induction s as [|c s IH]; simpl; [reflexivity|].
  intros H. destruct (p c); [| exact H].
  apply IH. apply andb_prop in H. tauto.
Qed.

Lemma rstrip_starts q p s :
  starts_with q (rstrip p s) = true -> starts_with q s = true.
Proof.
  intros H. destruct (starts_with q s) eqn:E; [reflexivity|].
  rewrite (rstrip_head p q s E) in H. discriminate.
Qed.

Lemma rstrip_runs p s : no_double_dash s = true -> no_double_dash (rstrip p s) = true.
Proof.
  induction s as [|c s IH]; [reflexivity|].
  intros H. pose proof (no_double_dash_tail _ _ H) as Ht.
  specialize (IH Ht). cbn [rstrip].
  destruct (rstrip p s) as [|d r] eqn:Hr.
  - destruct (p c); simpl; [reflexivity|]. rewrite andb_false_r. reflexivity.
  - change (no_double_dash (c :: d :: r))
      with (negb (is_dash c && is_dash d) && no_double_dash (d :: r)).
    rewrite IH, andb_true_r.
    cbn [no_double_dash] in H. apply andb_prop in H. destruct H as [H _].
    destruct (is_dash c); [|reflexivity]. simpl in H |- *.
    destruct (is_dash d) eqn:Hd; [|reflexivity].
    assert (starts_with is_dash s = true) as Hs.
    { apply (rstrip_starts is_dash p). rewrite Hr. exact Hd. }
    rewrite Hs in H. discriminate.
Qed.

Lemma Forall_ends_with (p : ascii -> bool) s :
  Forall (fun c => p c = false) s -> ends_with p s = false.
Proof.
  induction 1 as [|c s Hc Hs IH]; [reflexivity|].
  destruct s; simpl; assumption.
Qed.

Lemma ends_with_snoc p s c : ends_with p (s ++ [c]) = p c.
Proof.
  induction s as [|d s IH]; [reflexivity|].
  simpl. destruct (s ++ [c])%list eqn:E; [destruct s; discriminate | exact IH].
Qed.

(** ** The two substitutions *)

Lemma sub_non_az09_alphabet b s :
  Forall (fun c => is_slug_char c = true) (sub_non_az09 b s).
Proof.
  revert b. induction s as [|c s IH]; intros b; simpl; [constructor|].
  destruct (is_az09 c) eqn:Hc.
  - constructor; [apply az09_slug, Hc | apply IH].
  - destruct b; [apply IH | constructor; [reflexivity | apply IH]].
Qed.

(** Inside a run no further dash is produced. *)
Lemma sub_non_az09_in_run s : starts_with is_dash (sub_non_az09 true s) = false.
Proof.
  induction s as [|c s IH]; simpl; [reflexivity|].
  destruct (is_az09 c) eqn:Hc; [simpl; apply az09_not_dash, Hc | exact IH].
Qed.

Lemma sub_non_az09_runs b s : no_double_dash (sub_non_az09 b s) = true.
Proof.
  revert b. induction s as [|c s IH]; intros b; simpl; [reflexivity|].
  destruct (is_az09 c) eqn:Hc.
  - simpl. rewrite (az09_not_dash c Hc), IH. reflexivity.
  - destruct b; [apply IH|].
    simpl. rewrite sub_non_az09_in_run, IH. reflexivity.
Qed.

(** A string in which every dash stands alone between two characters of
    [[a-z0-9]] has nothing to substitute. *)
Lemma sub_non_az09_id s :
  Forall (fun c => is_slug_char c = true) s ->
  no_double_dash s = true ->
  ends_with is_dash s = false ->
  sub_non_az09 false s = s /\
  (starts_with is_dash s = false -> sub_non_az09 true s = s).
Proof.
  induction 1 as [|c s Hc Hs IH]; intros Hr He; [split; reflexivity|].
  assert (ends_with is_dash s = false) as He'.
  { destruct s; [reflexivity | exact He]. }
  destruct (IH (no_double_dash_tail _ _ Hr) He') as [IH1 IH2].
  simpl. destruct (is_az09 c) eqn:Hz.
  - rewrite IH1. split; reflexivity.
  - pose proof (slug_not_az09 c Hc Hz) as ->. split.
    + simpl in Hr. apply andb_prop in Hr. destruct Hr as [Hr _].
      rewrite IH2; [reflexivity|].
      destruct (starts_with is_dash s); [discriminate | reflexivity].
    + discriminate.
Qed.

Lemma sub_dashes_id s : no_double_dash s = true -> sub_dashes s = s.
Proof.
  induction s as [|c s IH]; [reflexivity|].
  intros H. pose proof (IH (no_double_dash_tail _ _ H)) as IH'.
  cbn [sub_dashes]. cbn [no_double_dash] in H.
  apply andb_prop in H. destruct H as [H _].
  destruct (is_dash c).
  - destruct s as [|d s']; [reflexivity|].
    simpl in H. destruct (is_dash d); [discriminate|]. rewrite IH'. reflexivity.
  - rewrite IH'. reflexivity.
Qed.

(** Without a character of [[a-z0-9]] the first substitution leaves at most
    one dash. *)
Lemma sub_non_az09_none s :
  Forall (fun c => is_az09 c = false) s ->
  sub_non_az09 true s = [] /\
  (sub_non_az09 false s = [] \/ sub_non_az09 false s = [dash]).
Proof.
  induction 1 as [|c s Hc Hs [IH1 IH2]]; simpl; [auto|].
  rewrite Hc, IH1. auto.
Qed.

(** ** [slugify] *)

Lemma image_clean : clean (list_ascii_of_string "image").
Proof. split; [repeat constructor | reflexivity | reflexivity | reflexivity]. Qed.

Lemma stripped_clean s : clean (strip is_dash (sub_dashes (sub_non_az09 false s))).
Proof.
  rewrite (sub_dashes_id _ (sub_non_az09_runs false s)). unfold strip. split.
  - apply rstrip_Forall, lstrip_Forall, sub_non_az09_alphabet.
  - apply rstrip_runs, lstrip_runs, sub_non_az09_runs.
  - apply rstrip_head, lstrip_head.
  - apply rstrip_last.
Qed.

Lemma slugify_chars_clean x : clean (slugify_chars x) /\ slugify_chars x <> [].
Proof.
  unfold slugify_chars.
  pose proof (stripped_clean (strip is_space (map lower_char x))) as H.
  destruct (strip is_dash _) as [|c s]; simpl.
  - split; [apply image_clean | discriminate].
  - split; [exact H | discriminate].
Qed.

Lemma map_lower_id s :
  Forall (fun c => is_slug_char c = true) s -> map lower_char s = s.
Proof.
  induction 1 as [|c s Hc Hs IH]; simpl; [reflexivity|].
  rewrite (lower_char_slug c Hc), IH. reflexivity.
Qed.

(** A clean, non-empty string is its own slug. *)
Lemma slugify_chars_fixed s : clean s -> s <> [] -> slugify_chars s = s.
Proof.
  intros [Ha Hr Hh Hl] Hne. unfold slugify_chars.
  rewrite (map_lower_id s Ha).
  assert (Forall (fun c => is_space c = false) s) as Hsp.
  { eapply Forall_impl; [exact Ha | intros c; apply is_space_slug]. }
  assert (strip is_space s = s) as ->.
  { unfold strip. rewrite lstrip_id.
    - apply rstrip_id, Forall_ends_with, Hsp.
    - destruct Hsp; [reflexivity | assumption]. }
  destruct (sub_non_az09_id s Ha Hr Hl) as [-> _].
  rewrite (sub_dashes_id s Hr).
  unfold strip. rewrite (lstrip_id _ _ Hh), (rstrip_id _ _ Hl).
  destruct s; [contradiction | reflexivity].
Qed.

Lemma slugify_chars_idempotent x : slugify_chars (slugify_chars x) = slugify_chars x.
Proof.
  destruct (slugify_chars_clean x) as [Hc Hne].
  apply slugify_chars_fixed; assumption.
Qed.

Lemma slugify_chars_no_alnum x :
  Forall (fun c => is_alnum c = false) x ->
  slugify_chars x = list_ascii_of_string "image".
Proof.
  intros H. unfold slugify_chars.
  assert (Forall (fun c => is_az09 c = false) (strip is_space (map lower_char x))) as Hz.
  { apply strip_Forall. induction H as [|c s Hc Hs IH]; simpl; constructor.
    - apply lower_char_not_alnum, Hc.
    - exact IH. }
  destruct (sub_non_az09_none _ Hz) as [_ [-> | ->]]; reflexivity.
Qed.

Lemma list_ascii_of_string_app (a b : string) :
  list_ascii_of_string (a +:+ b) = (list_ascii_of_string a ++ list_ascii_of_string b)%list.
Proof. induction a as [|c a IH]; simpl; [reflexivity | rewrite IH; reflexivity]. Qed.



(** ** File names *)

Lemma string_of_uint_digits d : all_digits (NilEmpty.string_of_uint d) = true.
Proof. induction d; simpl; auto. Qed.

Lemma all_digits_app a b :
  all_digits a = true -> all_digits b = true -> all_digits (a +:+ b) = true.
Proof.
  induction a as [|c a IH]; simpl; [auto|].
  intros H Hb. apply andb_prop in H. destruct H as [-> H]. simpl. auto.
Qed.

Lemma zeros_digits k : all_digits (zeros k) = true.
Proof. induction k; simpl; auto. Qed.

Lemma format_03d_digits idx : all_digits (format_03d idx) = true.
Proof.
  unfold format_03d, decimal.
  apply all_digits_app; [apply zeros_digits | apply string_of_uint_digits].
Qed.

Lemma uint_of_zeros k d :
  NilEmpty.uint_of_string (zeros k +:+ NilEmpty.string_of_uint d)
  = Some (Nat.iter k Decimal.D0 d).
Proof.
  induction k as [|k IH]; simpl; [apply NilEmpty.usu|].
  rewrite IH. reflexivity.
Qed.

Lemma of_uint_zeros k d : Nat.of_uint (Nat.iter k Decimal.D0 d) = Nat.of_uint d.
Proof. induction k as [|k IH]; simpl; [reflexivity | exact IH]. Qed.

(** The number can be read back from its formatted form, so formatting loses
    nothing. *)
Lemma index_of_format_03d idx : index_of (format_03d idx) = Some idx.
Proof.
  unfold index_of, format_03d, decimal. rewrite uint_of_zeros. simpl.
  rewrite of_uint_zeros, DecimalNat.Unsigned.of_to. reflexivity.
Qed.

(** Two strings that agree after a run of digits and a dash agree on the
    digits. *)
Lemma digits_dash_split a a' r r' :
  all_digits a = true -> all_digits a' = true ->
  a +:+ String dash r = a' +:+ String dash r' -> a = a'.
Proof.
  revert a'. induction a as [|c a IH]; intros [|c' a'] Ha Ha' E; simpl in *.
  - reflexivity.
  - injection E as <- _. apply andb_prop in Ha'. destruct Ha' as [Hd _]. discriminate.
  - injection E as -> _. apply andb_prop in Ha. destruct Ha as [Hd _]. discriminate.
  - injection E as -> E. apply andb_prop in Ha, Ha'.
    f_equal. apply IH; tauto.
Qed.

Lemma filename_index idx idx' prompt prompt' :
  filename idx prompt = filename idx' prompt' -> idx = idx'.
Proof.
  unfold filename. intros E.
  apply digits_dash_split in E; try apply format_03d_digits.
  apply (f_equal index_of) in E. rewrite !index_of_format_03d in E.
  congruence.
Qed.

Lemma batch_filenames_NoDup prompts : NoDup (batch_filenames prompts).
Proof.
  apply NoDup_alt. intros i j f Hi Hj. unfold batch_filenames in *.
  rewrite list_lookup_imap in Hi, Hj.
  destruct (prompts !! i) as [p|]; [|discriminate].
  destruct (prompts !! j) as [q|]; [|discriminate].
  simpl in *. injection Hi as Hi. injection Hj as Hj.
  assert (S i = S j) by (eapply filename_index; rewrite Hi, Hj; reflexivity).
  lia.
Qed.

(** Below 1000 the formatted index has exactly three characters; the check
    is run on every such index. *)
Lemma format_03d_width idx : idx < 1000 -> String.length (format_03d idx) = 3.
Proof.
  intros H.
  assert (forallb (fun i => Nat.eqb (String.length (format_03d i)) 3) (seq 0 1000) = true) as Hall
    by (vm_compute; reflexivity).
  rewrite forallb_forall in Hall.
  apply Nat.eqb_eq, Hall, in_seq. lia.
Qed.

(** ** One coroutine *)

Lemma resume_factor E config out_dir idx prompt c w :
  resume E config out_dir idx prompt c w
  = (advance E config idx prompt c,
     perform out_dir idx (action E config idx prompt c) w).
Proof.
  unfold advance. destruct c as [| |file u|r]; simpl; try reflexivity.
  - destruct (images_generate E idx (build_params config prompt)) as [o msg|data];
      [reflexivity|].
    unfold on_response, response_action.
    destruct data as [| |[|data_item l]]; try reflexivity; simpl.
    + destruct (truthy (b64_json data_item)).
      * destruct (b64decode E _); reflexivity.
      * destruct (truthy (url data_item)); reflexivity.
  - destruct (http_get E idx u) as [msg|status_code content]; [reflexivity|].
    destruct (is_success status_code); reflexivity.
Qed.

Lemma rank_advance E config idx prompt c :
  rank (advance E config idx prompt c) <= pred (rank c).
Proof.
  unfold advance. destruct c as [| |file u|r]; simpl; try lia.
  - destruct (images_generate E idx _) as [o msg|data]; simpl; [lia|].
    unfold response_action. destruct data as [| |[|data_item l]]; simpl; try lia.
    destruct (truthy (b64_json data_item)).
    + destruct (b64decode E _); simpl; lia.
    + destruct (truthy (url data_item)); simpl; lia.
  - destruct (http_get E idx u) as [msg|status_code content]; simpl; [lia|].
    destruct (is_success status_code); simpl; lia.
Qed.

Lemma rank_0 c : rank c = 0 -> exists r, c = Returned r.
Proof. destruct c; simpl; try discriminate. eauto. Qed.

Lemma rank_after E config idx prompt n : rank (after E config idx prompt n) <= 3 - n.
Proof.
  induction n as [|n IH]; [simpl; lia|].
  unfold after in *. simpl.
  pose proof (rank_advance E config idx prompt
                (Nat.iter n (advance E config idx prompt) Created)). lia.
Qed.

Lemma advance_returned E config idx prompt r :
  advance E config idx prompt (Returned r) = Returned r.
Proof. reflexivity. Qed.

(** Three resumptions bring every coroutine to its return, and further ones
    change nothing. *)
Lemma after_stable E config idx prompt n :
  3 <= n -> after E config idx prompt n = after E config idx prompt 3.
Proof.
  intros H. replace n with ((n - 3) + 3) by lia.
  generalize (n - 3) as k. intros k.
  pose proof (rank_after E config idx prompt 3) as Hr.
  destruct (rank_0 (after E config idx prompt 3)) as [r Hret]; [lia|].
  unfold after in *. rewrite Nat.iter_add, Hret.
  induction k as [|k IH]; simpl; [reflexivity | rewrite IH; reflexivity].
Qed.

Lemma after_3_returned E config idx prompt :
  exists r, after E config idx prompt 3 = Returned r.
Proof.
  apply rank_0. pose proof (rank_after E config idx prompt 3). lia.
Qed.

Lemma request_image_factor E config out_dir idx prompt w :
  (request_image E config out_dir idx prompt w).1
  = result_of (after E config idx prompt 3).
Proof.
  unfold request_image. rewrite !resume_factor. reflexivity.
Qed.

Lemma outcome_after E config idx prompt :
  outcome E config idx prompt = result_of (after E config idx prompt 3).
Proof. apply request_image_factor. Qed.

(** The result of a request does not depend on the world it runs in. *)
Lemma request_image_outcome E config out_dir idx prompt w :
  (request_image E config out_dir idx prompt w).1 = outcome E config idx prompt.
Proof. rewrite outcome_after. apply request_image_factor. Qed.

Lemma perform_fs out_dir idx a w :
  fs (perform out_dir idx a w)
  = match a with
    | Save file png => <[path_join out_dir file := ImageBytes png]> (fs w)
    | _ => fs w
    end.
Proof. destruct a; reflexivity. Qed.

Lemma perform_api_calls out_dir idx a w :
  api_calls (perform out_dir idx a w)
  = match a with
    | Send _ params => (idx, params) :: api_calls w
    | _ => api_calls w
    end.
Proof. destruct a; reflexivity. Qed.

Lemma perform_dirs out_dir idx a w : dirs (perform out_dir idx a w) = dirs w.
Proof. destruct a; reflexivity. Qed.

Lemma perform_rng out_dir idx a w : rng_pos (perform out_dir idx a w) = rng_pos w.
Proof. destruct a; reflexivity. Qed.

Lemma response_action_not_send E idx prompt data d params :
  response_action E idx prompt data <> Send d params.
Proof.
  unfold response_action. destruct data as [| |[|data_item l]]; try discriminate.
  destruct (truthy (b64_json data_item)).
  - destruct (b64decode E _); discriminate.
  - destruct (truthy (url data_item)); discriminate.
Qed.

(** Only a coroutine that has not run yet sends the request. *)
Lemma action_send E config idx prompt c d params :
  action E config idx prompt c = Send d params ->
  c = Created /\ params = build_params config prompt.
Proof.
  destruct c as [| |file u|r]; simpl.
  - intros H. injection H as _ <-. auto.
  - destruct (images_generate E idx _); [discriminate|].
    intros H. apply response_action_not_send in H. contradiction.
  - destruct (http_get E idx u) as [|status_code content]; [discriminate|].
    destruct (is_success status_code); discriminate.
  - discriminate.
Qed.

Lemma advance_not_created E config idx prompt c :
  advance E config idx prompt c <> Created.
Proof.
  intros H. pose proof (rank_advance E config idx prompt c) as Hr.
  rewrite H in Hr. simpl in Hr. destruct c; simpl in Hr; lia.
Qed.

(** A coroutine comes to hold an item only by saving a picture. *)
Lemma advance_returned_some E config idx prompt c :
  returned_some (advance E config idx prompt c) = true ->
  (returned_some c = true /\ action E config idx prompt c = Idle
   /\ advance E config idx prompt c = c) \/
  (exists file png, action E config idx prompt c = Save file png).
Proof.
  unfold advance. destruct (action E config idx prompt c) eqn:Ha; simpl;
    try discriminate; eauto.
Qed.

Lemma after_S E config idx prompt n :
  after E config idx prompt (S n)
  = advance E config idx prompt (after E config idx prompt n).
Proof. reflexivity. Qed.

(** A picture is saved under the name of line 143, and it is the picture
    [image_data] speaks of. *)
Lemma save_reachable E config idx prompt n file png :
  action E config idx prompt (after E config idx prompt n) = Save file png ->
  file = filename idx prompt /\ image_data E config idx prompt = Some png.
Proof.
  destruct n as [|[|[|n]]].
  - discriminate.
  - intros H. unfold image_data. rewrite H. split; [|reflexivity].
    change (after E config idx prompt 1) with AwaitGenerate in H. simpl in H.
    destruct (images_generate E idx _) as [|data]; [discriminate|].
    unfold response_action in H. destruct data as [| |[|data_item l]]; try discriminate.
    destruct (truthy (b64_json data_item)).
    + destruct (b64decode E _); [|discriminate]. injection H as <- _. reflexivity.
    + destruct (truthy (url data_item)); discriminate.
  - intros H. unfold image_data.
    change (after E config idx prompt 2)
      with (advance E config idx prompt AwaitGenerate) in *.
    change (after E config idx prompt 1) with AwaitGenerate.
    unfold advance in *.
    destruct (action E config idx prompt AwaitGenerate) eqn:Ha;
      cbn [next_state saved_by] in H |- *; try discriminate.
    + apply action_send in Ha. destruct Ha; discriminate.
    + rewrite H. split; [|reflexivity]. simpl in H.
      destruct (http_get E idx u) as [|status_code content]; [discriminate|].
      destruct (is_success status_code); [|discriminate].
      injection H as <- _. reflexivity.
    + rewrite Ha in H. discriminate.
  - intros H. rewrite after_stable in H by lia.
    destruct (after_3_returned E config idx prompt) as [r Hr].
    rewrite Hr in H. discriminate.
Qed.

(** A request that returns an item has saved its picture under the name of
    line 143. *)
Lemma outcome_some E config idx prompt item :
  outcome E config idx prompt = Some item ->
  item = {| item_prompt := prompt; item_file := filename idx prompt |} /\
  exists png, image_data E config idx prompt = Some png.
Proof.
  rewrite outcome_after. intros H.
  assert (forall n, returned_some (after E config idx prompt n) = true ->
            after E config idx prompt n
            = Returned (Some {| item_prompt := prompt; item_file := filename idx prompt |})
            /\ exists png, image_data E config idx prompt = Some png) as Hn.
  { induction n as [|n IH]; [discriminate|].
    rewrite after_S. intros Hs.
    destruct (advance_returned_some _ _ _ _ _ Hs) as [(Hc & _ & ->) | (file & png & Ha)].
    - apply IH, Hc.
    - destruct (save_reachable _ _ _ _ _ _ _ Ha) as [-> Hd].
      unfold advance. rewrite Ha. simpl. eauto. }
  destruct (after E config idx prompt 3) as [| | |[it|]] eqn:H3; try discriminate.
  simpl in H. injection H as ->.
  destruct (Hn 3) as [Heq Hpng]; [rewrite H3; reflexivity|].
  rewrite H3 in Heq. injection Heq as ->. auto.
Qed.

Lemma append_inj_l (s a b : string) : s +:+ a = s +:+ b -> a = b.
Proof. induction s as [|c s IH]; simpl; [auto | intros H; injection H as H; auto]. Qed.

Lemma path_join_inj out_dir a b : path_join out_dir a = path_join out_dir b -> a = b.
Proof.
  unfold path_join. intros H. apply append_inj_l in H. injection H as H. exact H.
Qed.

Lemma path_of_request out_dir i j p q :
  path_join out_dir (filename (S i) p) = path_join out_dir (filename (S j) q) -> i = j.
Proof.
  intros H. apply path_join_inj, filename_index in H. lia.
Qed.

(** ** The coroutines of one batch *)

Section Batch.

Context (E : Env) (config : AppConfig) (out_dir : string) (prompts : list string).

Local Abbreviation step := (resume_nth E config out_dir prompts).
Local Abbreviation run := (run_schedule E config out_dir prompts).
Local Abbreviation adv i p := (advance E config (S i) p).

Lemma resume_nth_factor i p c cs w :
  prompts !! i = Some p -> cs !! i = Some c ->
  step i (cs, w)
  = (<[i := adv i p c]> cs, perform out_dir (S i) (action E config (S i) p c) w).
Proof.
  intros Hp Hc. unfold resume_nth. simpl. rewrite Hp, Hc, resume_factor. reflexivity.
Qed.

Lemma resume_nth_outside i st :
  prompts !! i = None \/ st.1 !! i = None -> step i st = st.
Proof.
  unfold resume_nth. intros [H | H]; rewrite H; [reflexivity|].
  destruct (prompts !! i); reflexivity.
Qed.

Lemma resume_nth_cases i st :
  ((prompts !! i = None \/ st.1 !! i = None) /\ step i st = st) \/
  exists p c, prompts !! i = Some p /\ st.1 !! i = Some c /\
    step i st = (<[i := adv i p c]> st.1,
                 perform out_dir (S i) (action E config (S i) p c) st.2).
Proof.
  destruct (prompts !! i) as [p|] eqn:Hp.
  - destruct (st.1 !! i) as [c|] eqn:Hc.
    + right. exists p, c. destruct st as [cs w].
      repeat split; try assumption. apply resume_nth_factor; assumption.
    + left. split; [auto | apply resume_nth_outside; auto].
  - left. split; [auto | apply resume_nth_outside; auto].
Qed.

Lemma run_schedule_cons i l st : run (i :: l) st = run l (step i st).
Proof. reflexivity. Qed.

Lemma run_schedule_app l1 l2 st : run (l1 ++ l2)%list st = run l2 (run l1 st).
Proof. unfold run_schedule. apply foldl_app. Qed.

(** A property kept by every resumption is kept by every schedule. *)
Lemma run_schedule_preserves (P : list Coroutine * World -> Prop) :
  (forall i st, P st -> P (step i st)) ->
  forall l st, P st -> P (run l st).
Proof.
  intros Hstep l. induction l as [|i l IH]; intros st H; [exact H|].
  rewrite run_schedule_cons. apply IH, Hstep, H.
Qed.

Lemma resume_nth_length i st : length (step i st).1 = length st.1.
Proof.
  destruct (resume_nth_cases i st) as [[_ ->] | (p & c & _ & _ & ->)]; [reflexivity|].
  simpl. apply length_insert.
Qed.

Lemma run_schedule_length l st : length (run l st).1 = length st.1.
Proof.
  revert st. induction l as [|i l IH]; intros st; [reflexivity|].
  rewrite run_schedule_cons, IH. apply resume_nth_length.
Qed.

(** The coroutine at position [i] sees only its own resumptions. *)
Lemma resume_nth_lookup i j p st :
  prompts !! i = Some p ->
  (step j st).1 !! i
  = (if decide (j = i) then adv i p <$> st.1 !! i else st.1 !! i).
Proof.
  intros Hp.
  destruct (resume_nth_cases j st) as [[Hout ->] | (q & c & Hq & Hc & ->)].
  - destruct (decide (j = i)) as [->|]; [|reflexivity].
    destruct Hout as [Hout | Hout]; [congruence|].
    rewrite Hout. reflexivity.
  - simpl. destruct (decide (j = i)) as [->|Hne].
    + rewrite Hp in Hq. injection Hq as <-. rewrite Hc. simpl.
      apply list_lookup_insert_eq. apply lookup_lt_Some in Hc. exact Hc.
    + apply list_lookup_insert_ne. exact Hne.
Qed.

Lemma run_schedule_lookup l i p st :
  prompts !! i = Some p ->
  (run l st).1 !! i
  = Nat.iter (count_occ Nat.eq_dec l i) (adv i p) <$> st.1 !! i.
Proof.
  intros Hp. revert st. induction l as [|j l IH]; intros st.
  - simpl. destruct (st.1 !! i); reflexivity.
  - rewrite run_schedule_cons, IH, (resume_nth_lookup i j p st Hp).
    simpl. destruct (Nat.eq_dec j i) as [->|Hne].
    + rewrite decide_True by reflexivity.
      destruct (st.1 !! i) as [c|]; [|reflexivity].
      simpl. rewrite <- Nat.iter_succ_r. reflexivity.
    + rewrite decide_False by exact Hne. reflexivity.
Qed.

Lemma round_count i : i < length prompts -> 1 <= count_occ Nat.eq_dec (round prompts) i.
Proof.
  intros H. apply (count_occ_In Nat.eq_dec). unfold round. apply in_seq. lia.
Qed.

Lemma gather_state_length schedule w :
  length (gather_state E config out_dir prompts schedule w).1 = length prompts.
Proof.
  unfold gather_state. rewrite run_schedule_length. simpl. apply length_replicate.
Qed.

(** When [gather] hands back, the coroutine of every request has been
    resumed to its return. *)
Lemma gather_state_lookup schedule w i p :
  prompts !! i = Some p ->
  (gather_state E config out_dir prompts schedule w).1 !! i
  = Some (after E config (S i) p 3).
Proof.
  intros Hp. unfold gather_state.
  rewrite (run_schedule_lookup _ i p _ Hp). simpl.
  pose proof (lookup_lt_Some _ _ _ Hp) as Hlt.
  rewrite lookup_replicate_2 by exact Hlt. simpl. f_equal.
  apply (after_stable E config (S i) p).
  rewrite !count_occ_app. pose proof (round_count i Hlt). lia.
Qed.

Lemma gather_state_tasks schedule w :
  (gather_state E config out_dir prompts schedule w).1
  = imap (fun i p => after E config (S i) p 3) prompts.
Proof.
  apply list_eq. intros i. rewrite list_lookup_imap.
  destruct (prompts !! i) as [p|] eqn:Hp; simpl.
  - apply gather_state_lookup, Hp.
  - apply lookup_ge_None. rewrite gather_state_length.
    apply lookup_ge_None in Hp. exact Hp.
Qed.

Lemma gather_all_returned schedule w :
  all_returned (gather_state E config out_dir prompts schedule w).1 = true.
Proof.
  rewrite gather_state_tasks. unfold all_returned. apply forallb_forall.
  intros c Hc. apply list_elem_of_In, elem_of_lookup_imap in Hc.
  destruct Hc as (i & p & -> & _).
  destruct (after_3_returned E config (S i) p) as [r ->]. reflexivity.
Qed.

Lemma gather_results schedule w :
  (gather E config out_dir prompts schedule w).1
  = imap (fun i p => outcome E config (S i) p) prompts.
Proof.
  unfold gather. simpl. rewrite gather_state_tasks.
  change (map result_of) with (fmap (M:=list) result_of).
  rewrite fmap_imap. apply imap_ext. intros i p _. simpl.
  symmetry. apply outcome_after.
Qed.

End Batch.

(** ** The world during a batch *)

Section BatchWorld.

Context (E : Env) (config : AppConfig) (out_dir : string) (prompts : list string)
        (w0 : World).

Local Abbreviation ok := (consistent E config out_dir prompts w0).
Local Abbreviation path_of i p := (path_join out_dir (filename (S i) p)).

Lemma consistent_start : ok (replicate (length prompts) Created, w0).
Proof.
  split; simpl.
  - intros i p c _ Hc. apply lookup_replicate in Hc. destruct Hc as [-> _].
    exists 0. reflexivity.
  - intros i p c _ Hc. apply lookup_replicate in Hc. destruct Hc as [-> _].
    discriminate.
  - reflexivity.
  - intros [|i]; simpl; [lia|].
    destruct (replicate (length prompts) Created !! i) as [c|] eqn:Hc; [|lia].
    apply lookup_replicate in Hc. destruct Hc as [-> _]. lia.
  - auto.
  - reflexivity.
  - reflexivity.
Qed.

Lemma started_insert cs j c c' n :
  cs !! j = Some c ->
  started (<[j := c']> cs) n
  = if decide (n = S j)
    then match c' with Created => 0 | _ => 1 end
    else started cs n.
Proof.
  intros Hc. destruct n as [|i].
  - destruct (decide (0 = S j)); [lia | reflexivity].
  - destruct (decide (S i = S j)) as [Heq|Hne]; cbn [started].
    + injection Heq as ->. rewrite list_lookup_insert_eq; [reflexivity|].
      apply lookup_lt_Some in Hc. exact Hc.
    + rewrite list_lookup_insert_ne by congruence. reflexivity.
Qed.

Lemma started_step cs j p c m :
  cs !! j = Some c ->
  started (<[j := advance E config (S j) p c]> cs) m
  = started cs m + sends (action E config (S j) p c) j m.
Proof.
  intros Hc. rewrite (started_insert cs j c _ m Hc).
  destruct (decide (m = S j)) as [->|Hne].
  - cbn [started]. rewrite Hc.
    pose proof (advance_not_created E config (S j) p c) as Hadv.
    destruct (action E config (S j) p c) eqn:Ha; cbn [sends].
    + rewrite decide_True by reflexivity.
      destruct (action_send _ _ _ _ _ _ _ Ha) as [-> _]. reflexivity.
    + destruct (advance E config (S j) p c); [contradiction | | |];
        (destruct c; [discriminate Ha | reflexivity | reflexivity | reflexivity]).
    + destruct (advance E config (S j) p c); [contradiction | | |];
        (destruct c; [discriminate Ha | reflexivity | reflexivity | reflexivity]).
    + destruct (advance E config (S j) p c); [contradiction | | |];
        (destruct c; [discriminate Ha | reflexivity | reflexivity | reflexivity]).
    + destruct (advance E config (S j) p c); [contradiction | | |];
        (destruct c; [discriminate Ha | reflexivity | reflexivity | reflexivity]).
    + destruct (advance E config (S j) p c); [contradiction | | |];
        (destruct c; [discriminate Ha | reflexivity | reflexivity | reflexivity]).
  - destruct (action E config (S j) p c); cbn [sends];
      try rewrite decide_False by exact Hne; lia.
Qed.

Lemma count_calls_step j a w m :
  count_occ Nat.eq_dec (map fst (api_calls (perform out_dir (S j) a w))) m
  = count_occ Nat.eq_dec (map fst (api_calls w)) m + sends a j m.
Proof.
  rewrite perform_api_calls. destruct a; cbn [sends]; try lia.
  cbn [map fst count_occ].
  destruct (decide (m = S j)) as [->|Hne].
  - destruct (Nat.eq_dec (S j) (S j)); [lia | congruence].
  - destruct (Nat.eq_dec (S j) m); [congruence | lia].
Qed.

Lemma consistent_step j st : ok st -> ok (resume_nth E config out_dir prompts j st).
Proof.
  intros H.
  destruct (resume_nth_cases E config out_dir prompts j st)
    as [[_ ->] | (p & c & Hp & Hc & ->)]; [exact H|].
  destruct st as [cs w]. simpl in Hc |- *.
  destruct H as [Hreach Hwritten Hkept Hcalls Hparams Hdirs Hrng]. simpl in *.
  destruct (Hreach j p c Hp Hc) as [n Hn].
  pose proof (lookup_lt_Some _ _ _ Hc) as Hlt.
  assert (forall i x, i <> j -> <[j := advance E config (S j) p c]> cs !! i = Some x ->
                      cs !! i = Some x) as Hother.
  { intros i x Hne Hx. rewrite list_lookup_insert_ne in Hx by congruence. exact Hx. }
  assert (<[j := advance E config (S j) p c]> cs !! j
          = Some (advance E config (S j) p c)) as Hself
    by (apply list_lookup_insert_eq; exact Hlt).
  assert (forall file png, action E config (S j) p c = Save file png ->
            file = filename (S j) p /\ image_data E config (S j) p = Some png) as Hsave.
  { intros file png Ha. rewrite Hn in Ha. eapply save_reachable, Ha. }
  split; simpl.
  - (* every coroutine is where some number of resumptions brings it *)
    intros i q x Hq Hx. destruct (decide (i = j)) as [->|Hne].
    + rewrite Hself in Hx. injection Hx as <-.
      assert (q = p) as -> by congruence.
      exists (S n). rewrite after_S, Hn. reflexivity.
    + apply (Hreach i q x Hq), Hother; assumption.
  - (* the picture of every returned item is in its file *)
    intros i q x Hq Hx Hs. rewrite perform_fs.
    destruct (decide (i = j)) as [->|Hne].
    + rewrite Hself in Hx. injection Hx as <-.
      assert (q = p) as -> by congruence.
      destruct (advance_returned_some _ _ _ _ _ Hs)
        as [(Hcs & Ha & _) | (file & png & Ha)]; rewrite Ha.
      * apply (Hwritten j p c Hp Hc Hcs).
      * destruct (Hsave _ _ Ha) as [-> ->]. apply lookup_insert_eq.
    + pose proof (Hwritten i q x Hq (Hother i x Hne Hx) Hs) as Hw.
      destruct (action E config (S j) p c) eqn:Ha; try exact Hw.
      destruct (Hsave _ _ eq_refl) as [-> _].
      rewrite lookup_insert_ne; [exact Hw|].
      intros Heq. apply path_of_request in Heq. congruence.
  - (* every other file is as it was *)
    intros path Hpath. rewrite perform_fs.
    assert (fs w !! path = fs w0 !! path) as Hold.
    { apply Hkept. intros i q x Hq Hx Hs.
      destruct (decide (i = j)) as [->|Hne].
      - assert (x = c) as -> by congruence.
        destruct c as [| | |[it|]]; try discriminate.
        apply (Hpath j q (Returned (Some it)) Hq); [|reflexivity].
        rewrite Hself. reflexivity.
      - apply (Hpath i q x Hq); [|exact Hs].
        rewrite list_lookup_insert_ne by congruence. exact Hx. }
    destruct (action E config (S j) p c) eqn:Ha; try exact Hold.
    destruct (Hsave _ _ eq_refl) as [-> _].
    rewrite lookup_insert_ne; [exact Hold|].
    intros Heq. symmetry in Heq. revert Heq.
    apply (Hpath j p _ Hp Hself).
    unfold advance. rewrite Ha. reflexivity.
  - (* every request has left for the API at most once *)
    intros m. rewrite count_calls_step, (started_step cs j p c m Hc), Hcalls. lia.
  - (* what has been sent is what [build_params] builds *)
    intros idx params. rewrite perform_api_calls.
    destruct (action E config (S j) p c) eqn:Ha; try apply Hparams.
    destruct (action_send _ _ _ _ _ _ _ Ha) as [_ ->].
    intros [Heq | Hin]; [|apply Hparams, Hin].
    injection Heq as <- <-. right. exists j, p. auto.
  - rewrite perform_dirs. exact Hdirs.
  - rewrite perform_rng. exact Hrng.
Qed.

Lemma consistent_gather schedule :
  ok (gather_state E config out_dir prompts schedule w0).
Proof.
  unfold gather_state.
  apply (run_schedule_preserves E config out_dir prompts ok).
  - intros i st. apply consistent_step.
  - apply consistent_start.
Qed.

End BatchWorld.

(** ** Results of a batch *)

Lemma successes_enumerate E config (prompts : list string) :
  successes (imap (fun i p => outcome E config (S i) p) prompts)
  = omap (fun r => outcome E config r.1 r.2) (enumerate prompts).
Proof.
  unfold successes, enumerate.
  generalize S as f. induction prompts as [|p l IH]; intros f; [reflexivity|].
  specialize (IH (fun i => f (S i))).
  cbn [imap omap list_omap id] in IH |- *. unfold compose.
  rewrite IH. cbn [fst snd]. destruct (outcome E config (f 0) p); reflexivity.
Qed.

Lemma omap_length_fails E config (rs : list (nat * string)) :
  length (omap (fun r => outcome E config r.1 r.2) rs)
  = length rs - length (List.filter (fails E config) rs).
Proof.
  assert (length (omap (fun r => outcome E config r.1 r.2) rs)
          + length (List.filter (fails E config) rs) = length rs) as H; [|lia].
  induction rs as [|r rs IH]; [reflexivity|].
  cbn [omap list_omap List.filter].
  destruct (outcome E config r.1 r.2) as [item|] eqn:Ho.
  - assert (fails E config r = false) as -> by (unfold fails; rewrite Ho; reflexivity).
    simpl. lia.
  - assert (fails E config r = true) as -> by (unfold fails; rewrite Ho; reflexivity).
    simpl. lia.
Qed.

Lemma enumerate_length (prompts : list string) : length (enumerate prompts) = length prompts.
Proof. unfold enumerate. apply length_imap. Qed.

Lemma batch_filenames_enumerate (prompts : list string) :
  batch_filenames prompts = (fun r => filename r.1 r.2) <$> enumerate prompts.
Proof.
  unfold batch_filenames, enumerate. rewrite fmap_imap. reflexivity.
Qed.

Lemma omap_sublist E config (rs : list (nat * string)) :
  sublist (item_file <$> omap (fun r => outcome E config r.1 r.2) rs)
          ((fun r => filename r.1 r.2) <$> rs).
Proof.
  induction rs as [|r rs IH]; [constructor|].
  simpl. destruct (outcome E config r.1 r.2) as [item|] eqn:Ho.
  - destruct (outcome_some _ _ _ _ _ Ho) as [-> _]. simpl.
    apply sublist_skip, IH.
  - apply sublist_cons, IH.
Qed.

Lemma run_batch_items E config out_dir prompts schedule w :
  (run_batch E config out_dir prompts schedule w).1
  = omap (fun r => outcome E config r.1 r.2) (enumerate prompts).
Proof.
  unfold run_batch.
  pose proof (gather_results E config out_dir prompts schedule w) as H.
  destruct (gather E config out_dir prompts schedule w) as [results w'].
  simpl in *. rewrite H. apply successes_enumerate.
Qed.

Lemma run_batch_world E config out_dir prompts schedule w :
  (run_batch E config out_dir prompts schedule w).2
  = (gather_state E config out_dir prompts schedule w).2.
Proof. reflexivity. Qed.



(** ** One request among the others *)

(** Two environments that answer request [idx] alike. *)
Lemma action_ext E E' config idx prompt c :
  (forall params, images_generate E idx params = images_generate E' idx params) ->
  (forall u, http_get E idx u = http_get E' idx u) ->
  (forall b64, b64decode E b64 = b64decode E' b64) ->
  action E config idx prompt c = action E' config idx prompt c.
Proof.
  intros Hgen Hget Hdec. destruct c as [| |file u|r]; simpl; try reflexivity.
  - rewrite Hgen. destruct (images_generate E' idx _) as [|data]; [reflexivity|].
    unfold response_action. destruct data as [| |[|data_item l]]; try reflexivity.
    rewrite Hdec. reflexivity.
  - rewrite Hget. reflexivity.
Qed.

Lemma outcome_ext E E' config idx prompt :
  (forall params, images_generate E idx params = images_generate E' idx params) ->
  (forall u, http_get E idx u = http_get E' idx u) ->
  (forall b64, b64decode E b64 = b64decode E' b64) ->
  outcome E config idx prompt = outcome E' config idx prompt.
Proof.
  intros Hgen Hget Hdec. rewrite !outcome_after. f_equal.
  generalize 3 as n. induction n as [|n IH]; [reflexivity|].
  rewrite !after_S, IH. unfold advance.
  rewrite (action_ext E E' config idx prompt _ Hgen Hget Hdec). reflexivity.
Qed.

Lemma gather_lookup E config out_dir prompts schedule w i p :
  prompts !! i = Some p ->
  (gather E config out_dir prompts schedule w).1 !! i = Some (outcome E config (S i) p).
Proof.
  intros Hp. rewrite gather_results, list_lookup_imap, Hp. reflexivity.
Qed.

(** An error raised by the API call is caught: the request returns [None]. *)
Lemma outcome_api_error E config idx prompt openai_error msg :
  images_generate E idx (build_params config prompt) = GenRaises openai_error msg ->
  outcome E config idx prompt = None.
Proof.
  intros H. rewrite outcome_after. unfold after. simpl. unfold advance. simpl.
  rewrite H. reflexivity.
Qed.

(** So is an error of the download, be it a failed transfer or a status
    outside 200..299. *)
Lemma outcome_download_error E config idx prompt data_item l u :
  images_generate E idx (build_params config prompt)
  = GenReturns (DataList (data_item :: l)) ->
  truthy (b64_json data_item) = false ->
  url data_item = Some u -> truthy (Some u) = true ->
  (forall status_code content,
     http_get E idx u = GetReturns status_code content -> is_success status_code = false) ->
  outcome E config idx prompt = None.
Proof.
  intros Hgen Hb Hu Ht Hget. rewrite outcome_after. unfold after. simpl.
  unfold advance. simpl. rewrite Hgen. simpl. rewrite Hb, Hu, Ht. simpl.
  destruct (http_get E idx u) as [msg|status_code content] eqn:Hg; [reflexivity|].
  rewrite (Hget _ _ eq_refl). reflexivity.
Qed.

(** A response with neither an inline picture nor a link makes the request
    return [None]. *)
Lemma outcome_no_data E config idx prompt data_item l :
  images_generate E idx (build_params config prompt)
  = GenReturns (DataList (data_item :: l)) ->
  truthy (b64_json data_item) = false -> truthy (url data_item) = false ->
  outcome E config idx prompt = None.
Proof.
  intros Hgen Hb Hu. rewrite outcome_after. unfold after. simpl.
  unfold advance. simpl. rewrite Hgen. simpl. rewrite Hb, Hu. reflexivity.
Qed.

Lemma omap_all_none E config (rs : list (nat * string)) :
  Forall (fun r => fails E config r = true) rs ->
  omap (fun r => outcome E config r.1 r.2) rs = [].
Proof.
  induction 1 as [|r rs Hr Hrs IH]; [reflexivity|].
  cbn [omap list_omap]. unfold fails in Hr.
  destruct (outcome E config r.1 r.2); [discriminate | exact IH].
Qed.

(** Every request of the batch leaves for the API exactly once. *)
Lemma gather_calls_once E config out_dir prompts schedule w i :
  i < length prompts ->
  count_occ Nat.eq_dec
    (map fst (api_calls (gather E config out_dir prompts schedule w).2)) (S i)
  = count_occ Nat.eq_dec (map fst (api_calls w)) (S i) + 1.
Proof.
  intros Hlt. unfold gather. cbn [snd].
  rewrite (cons_calls _ _ _ _ _ _ (consistent_gather E config out_dir prompts w schedule)).
  f_equal. cbn [started].
  destruct (lookup_lt_is_Some_2 prompts i Hlt) as [p Hp].
  rewrite (gather_state_lookup E config out_dir prompts schedule w i p Hp).
  destruct (after_3_returned E config (S i) p) as [r ->]. reflexivity.
Qed.

(** ** [async_main] *)

Lemma async_main_success E args schedule w key config :
  env_api_key E = Some key -> validate args = Some config ->
  async_main E args schedule w
  = let '(out_dir, w2) := prepare_output E config w in
    let '(prompts, w3) := select_prompts E config w2 in
    let w4 := add_task "Generating images..." (length prompts) w3 in
    let '(items, w5) := run_batch E config out_dir prompts schedule w4 in
    let w6 := write_file (path_join out_dir "prompts.json") (ManifestJson items) w5 in
    (0%Z, print (GalleryCreated (path_join out_dir "index.html"))
            (write_gallery out_dir items w6)).
Proof. intros Hk Hv. unfold async_main. rewrite Hk, Hv. reflexivity. Qed.

Lemma async_main_exit_0 E args schedule w key config :
  env_api_key E = Some key -> validate args = Some config ->
  (async_main E args schedule w).1 = 0%Z.
Proof.
  intros Hk Hv. rewrite (async_main_success _ _ _ _ _ _ Hk Hv).
  destruct (prepare_output E config w) as [out_dir w2].
  destruct (select_prompts E config w2) as [prompts w3].
  cbv zeta. destruct (run_batch _ _ _ _ _ _) as [items w5].
  reflexivity.
Qed.



(** ** Progress *)

(** What one request adds to the progress counter: one unit, except when the
    answer carries no picture. *)
Lemma request_image_progress E config out_dir idx prompt w :
  completed (request_image E config out_dir idx prompt w).2
  = completed w + (if no_picture E config idx prompt then 0 else 1).
Proof.
  unfold request_image, no_picture. simpl.
  destruct (images_generate E idx (build_params config prompt)) as [o msg|data];
    simpl; [lia|].
  unfold on_response. destruct data as [| |[|data_item l]]; simpl; try lia.
  destruct (truthy (b64_json data_item)); simpl.
  - destruct (b64decode E _); simpl; lia.
  - destruct (truthy (url data_item)); simpl; [|lia].
    destruct (http_get E idx _) as [msg|status_code content]; simpl; [lia|].
    destruct (is_success status_code); simpl; lia.
Qed.

(** C3, as the code has it. A request whose answer carries neither an inline
    picture nor a link returns [None] without signalling progress (line 154
    returns before line 164), whereas a request that raises returns [None]
    and signals one unit. *)
Theorem no_picture_skips_progress E config out_dir idx prompt w data_item l :
  images_generate E idx (build_params config prompt)
  = GenReturns (DataList (data_item :: l)) ->
  truthy (b64_json data_item) = false -> truthy (url data_item) = false ->
  (request_image E config out_dir idx prompt w).1 = None /\
  completed (request_image E config out_dir idx prompt w).2 = completed w /\
  (forall E' openai_error msg,
     images_generate E' idx (build_params config prompt) = GenRaises openai_error msg ->
     (request_image E' config out_dir idx prompt w).1 = None /\
     completed (request_image E' config out_dir idx prompt w).2 = S (completed w)).
Proof.
  intros Hgen Hb Hu. repeat split.
  - rewrite request_image_outcome. eapply outcome_no_data; eassumption.
  - rewrite request_image_progress. unfold no_picture. rewrite Hgen, Hb, Hu. simpl. lia.
  - rewrite request_image_outcome. eapply outcome_api_error; eassumption.
  - rewrite request_image_progress. unfold no_picture. rewrite H. lia.
Qed.

Lemma no_picture_skips_progress_witness :
  (request_image demo_env demo_config "out" 4 "a red bicycle" empty_world).1 = None /\
  completed (request_image demo_env demo_config "out" 4 "a red bicycle" empty_world).2 = 0.
Proof.
  destruct (no_picture_skips_progress demo_env demo_config "out" 4 "a red bicycle"
              empty_world {| b64_json := None; url := None |} [])
    as (Hr & Hc & _); try reflexivity.
  split; [exact Hr | exact Hc].
Defined.

(** ** Files *)

Lemma after_3_outcome E config idx prompt :
  after E config idx prompt 3 = Returned (outcome E config idx prompt).
Proof.
  rewrite outcome_after.
  destruct (after_3_returned E config idx prompt) as [r ->]. reflexivity.
Qed.

(** One request on its own: one file when it succeeds, none when it fails. *)
Lemma request_image_fs E config out_dir idx prompt w :
  match (request_image E config out_dir idx prompt w).1 with
  | Some item =>
      item = {| item_prompt := prompt; item_file := filename idx prompt |} /\
      exists png,
        fs (request_image E config out_dir idx prompt w).2
        = <[path_join out_dir (item_file item) := ImageBytes png]> (fs w)
  | None => fs (request_image E config out_dir idx prompt w).2 = fs w
  end.
Proof.
  unfold request_image. simpl.
  destruct (images_generate E idx (build_params config prompt)) as [o msg|data];
    simpl; [reflexivity|].
  unfold on_response. destruct data as [| |[|data_item l]]; simpl; try reflexivity.
  destruct (truthy (b64_json data_item)); simpl.
  - destruct (b64decode E _) as [png|]; simpl; [|reflexivity]. eauto.
  - destruct (truthy (url data_item)); simpl; [|reflexivity].
    destruct (http_get E idx _) as [msg|status_code content]; simpl; [reflexivity|].
    destruct (is_success status_code); simpl; [|reflexivity]. eauto.
Qed.

Lemma enumerate_lookup (prompts : list string) i p :
  prompts !! i = Some p -> (S i, p) ∈ enumerate prompts.
Proof.
  intros Hp. unfold enumerate. apply elem_of_lookup_imap. exists i, p. auto.
Qed.

Lemma enumerate_elem (prompts : list string) r :
  r ∈ enumerate prompts -> exists i, r.1 = S i /\ prompts !! i = Some r.2.
Proof.
  unfold enumerate. intros H. apply elem_of_lookup_imap in H.
  destruct H as (i & p & -> & Hp). exists i. auto.
Qed.

Section BatchFiles.

Context (E : Env) (config : AppConfig) (out_dir : string) (prompts : list string)
        (schedule : list nat) (w : World).

Local Abbreviation items := (run_batch E config out_dir prompts schedule w).1.
Local Abbreviation w' := (run_batch E config out_dir prompts schedule w).2.

Lemma item_of_success i p item :
  prompts !! i = Some p -> outcome E config (S i) p = Some item -> item ∈ items.
Proof.
  intros Hp Ho. rewrite run_batch_items. apply list_elem_of_omap.
  exists (S i, p). split; [apply enumerate_lookup, Hp | exact Ho].
Qed.

Lemma success_of_item item :
  item ∈ items ->
  exists i p, prompts !! i = Some p /\ outcome E config (S i) p = Some item.
Proof.
  rewrite run_batch_items. intros H. apply list_elem_of_omap in H.
  destruct H as ([idx p] & Hr & Ho). apply enumerate_elem in Hr.
  destruct Hr as (i & Hi & Hp). simpl in *. subst idx. eauto.
Qed.

(** The file of a successful request holds its picture. *)
Lemma success_file i p item :
  prompts !! i = Some p -> outcome E config (S i) p = Some item ->
  exists png, fs w' !! path_join out_dir (item_file item) = Some (ImageBytes png).
Proof.
  intros Hp Ho. destruct (outcome_some _ _ _ _ _ Ho) as [-> [png Hpng]].
  exists png. rewrite run_batch_world. simpl.
  rewrite (cons_written _ _ _ _ _ _ (consistent_gather E config out_dir prompts w schedule)
             i p (after E config (S i) p 3) Hp).
  - rewrite Hpng. reflexivity.
  - apply gather_state_lookup, Hp.
  - rewrite after_3_outcome, Ho. reflexivity.
Qed.

(** A file that belongs to no returned item is as it was before the batch. *)
Lemma other_file path :
  (forall item, item ∈ items -> path <> path_join out_dir (item_file item)) ->
  fs w' !! path = fs w !! path.
Proof.
  intros Hpath. rewrite run_batch_world.
  apply (cons_kept _ _ _ _ _ _ (consistent_gather E config out_dir prompts w schedule)).
  intros i p c Hp Hc Hs.
  rewrite (gather_state_lookup E config out_dir prompts schedule w i p Hp) in Hc.
  assert (c = Returned (outcome E config (S i) p)) as ->
    by (rewrite <- after_3_outcome; congruence).
  simpl in Hs.
  destruct (outcome E config (S i) p) as [item|] eqn:Ho; [|discriminate].
  destruct (outcome_some _ _ _ _ _ Ho) as [Hitem _].
  pose proof (Hpath item (item_of_success i p item Hp Ho)) as Hne.
  rewrite Hitem in Hne. exact Hne.
Qed.

(** A failed request leaves the place of its file untouched. *)
Lemma failure_file i p :
  prompts !! i = Some p -> outcome E config (S i) p = None ->
  fs w' !! path_join out_dir (filename (S i) p)
  = fs w !! path_join out_dir (filename (S i) p).
Proof.
  intros Hp Ho. apply other_file. intros item Hitem Heq.
  destruct (success_of_item item Hitem) as (j & q & Hq & Hoq).
  destruct (outcome_some _ _ _ _ _ Hoq) as [-> _]. simpl in Heq.
  apply path_of_request in Heq. subst j. congruence.
Qed.

Lemma item_files_NoDup : NoDup (item_file <$> items).
Proof.
  apply (sublist_NoDup _ (batch_filenames prompts)); [apply batch_filenames_NoDup|].
  rewrite run_batch_items, batch_filenames_enumerate. apply omap_sublist.
Qed.

End BatchFiles.

(** ** The output directory at the end of a run *)

Lemma zeros_app_nonempty k c s : zeros k +:+ String c s <> "".
Proof. destruct k; discriminate. Qed.

Lemma format_03d_head idx :
  exists c rest, format_03d idx = String c rest /\ is_digit c = true.
Proof.
  pose proof (format_03d_digits idx) as H.
  destruct (format_03d idx) as [|c rest] eqn:Hf.
  - exfalso. unfold format_03d in Hf.
    destruct (decimal idx) as [|d s]; [discriminate|].
    exact (zeros_app_nonempty _ _ _ Hf).
  - simpl in H. apply andb_prop in H. destruct H as [Hc _]. eauto.
Qed.

(** A picture never takes the name of the manifest or of the gallery. *)
Lemma filename_not_reserved idx prompt :
  filename idx prompt <> "prompts.json" /\ filename idx prompt <> "index.html".
Proof.
  unfold filename. destruct (format_03d_head idx) as (c & rest & -> & Hc).
  split; simpl; intros H; injection H as -> _; discriminate.
Qed.

Lemma pick_prompts_loop_fs E n w : fs (pick_prompts_loop E n w).2 = fs w.
Proof.
  revert w. induction n as [|n IH]; intros w; [reflexivity|].
  simpl. destruct (pick_prompts_loop E n _) as [rest w4] eqn:Hl.
  simpl. change w4 with (rest, w4).2. rewrite <- Hl, IH. reflexivity.
Qed.

Lemma select_prompts_fs E config w : fs (select_prompts E config w).2 = fs w.
Proof.
  unfold select_prompts, pick_prompts.
  destruct (cfg_prompt config) as [p|]; [destruct (truthy (Some p))|];
    try reflexivity; apply pick_prompts_loop_fs.
Qed.

Lemma prepare_output_fs E config w : fs (prepare_output E config w).2 = fs w.
Proof. unfold prepare_output. destruct (cfg_out_dir config); reflexivity. Qed.

Lemma async_main_fs E args schedule w key config out_dir w2 prompts w3 :
  env_api_key E = Some key -> validate args = Some config ->
  prepare_output E config w = (out_dir, w2) ->
  select_prompts E config w2 = (prompts, w3) ->
  let batch :=
    run_batch E config out_dir prompts schedule
      (add_task "Generating images..." (length prompts) w3) in
  fs (async_main E args schedule w).2
  = <[path_join out_dir "index.html" := GalleryHtml out_dir batch.1]>
      (<[path_join out_dir "prompts.json" := ManifestJson batch.1]> (fs batch.2)).
Proof.
  intros Hk Hv Hprep Hsel. rewrite (async_main_success _ _ _ _ _ _ Hk Hv), Hprep, Hsel.
  cbv zeta. destruct (run_batch _ _ _ _ _ _) as [items w5]. reflexivity.
Qed.



(** ** The name of the output file *)

(** [str_take n s] is the first [n] characters of [s], or all of [s] when it
    is shorter. *)
Lemma str_take_prefix n s :
  String.length (str_take n s) = Nat.min n (String.length s) /\
  exists rest, s = str_take n s +:+ rest.
Proof.
  revert s. induction n as [|n IH]; intros s.
  - split; [reflexivity | exists s; reflexivity].
  - destruct s as [|c s]; [split; [reflexivity | exists ""; reflexivity]|].
    destruct (IH s) as [Hlen [rest Hrest]]. split.
    + simpl. rewrite Hlen. reflexivity.
    + exists rest. change (String c s = String c (str_take n s +:+ rest)).
      f_equal. exact Hrest.
Qed.

Example filenames_red_bicycle :
  batch_filenames demo_prompts
  = ["001-a-red-bicycle.png"; "002-a-red-bicycle.png"; "003-a-red-bicycle.png"].
Proof. reflexivity. Qed.

(** C6. In a batch of at most 50 requests, the file of request [idx] with
    prompt [p] is named by the index as three decimal digits, a dash, the
    first 40 characters of the slug of [p], and [.png]; the names of a batch
    are pairwise distinct, whatever the prompts. *)
Theorem filename_shape_and_distinct (prompts : list string) :
  length prompts <= 50 ->
  (forall E config out_dir w i p item,
     prompts !! i = Some p ->
     (request_image E config out_dir (S i) p w).1 = Some item ->
     item_file item
     = format_03d (S i) +:+ "-" +:+ str_take 40 (slugify p) +:+ ".png" /\
     String.length (format_03d (S i)) = 3 /\
     all_digits (format_03d (S i)) = true /\
     index_of (format_03d (S i)) = Some (S i) /\
     String.length (str_take 40 (slugify p)) = Nat.min 40 (String.length (slugify p)) /\
     exists rest, slugify p = str_take 40 (slugify p) +:+ rest) /\
  NoDup (batch_filenames prompts) /\
  (forall i j p q,
     prompts !! i = Some p -> prompts !! j = Some q ->
     filename (S i) p = filename (S j) q -> i = j).
Proof.
  intros Hlen. split; [|split].
  - intros E config out_dir w i p item Hp Hitem.
    rewrite request_image_outcome in Hitem.
    destruct (outcome_some _ _ _ _ _ Hitem) as [-> _]. cbn [item_file].
    pose proof (lookup_lt_Some _ _ _ Hp) as Hi.
    split; [reflexivity|]. repeat split.
    + apply format_03d_width. lia.
    + apply format_03d_digits.
    + apply index_of_format_03d.
    + apply str_take_prefix.
    + apply str_take_prefix.
  - apply batch_filenames_NoDup.
  - intros i j p q _ _ H. apply filename_index in H. lia.
Qed.

Lemma filename_shape_and_distinct_witness :
  length demo_prompts <= 50 /\
  NoDup (batch_filenames demo_prompts) /\
  item_file {| item_prompt := "a red bicycle"; item_file := filename 1 "a red bicycle" |}
  = "001-a-red-bicycle.png".
Proof.
  assert (length demo_prompts <= 50) as Hlen by (simpl; lia).
  destruct (filename_shape_and_distinct demo_prompts Hlen) as (Hname & Hdup & _).
  split; [exact Hlen|]. split; [exact Hdup|].
  destruct (Hname demo_env demo_config "out" empty_world 0 "a red bicycle"
              {| item_prompt := "a red bicycle"; item_file := filename 1 "a red bicycle" |}
              eq_refl eq_refl) as (-> & _).
  reflexivity.
Defined.

(** ** The prompt source *)

Lemma random_choice_in E (seq : list string) w :
  seq <> [] -> In (random_choice E seq w).1 seq.
Proof.
  intros Hne. unfold random_choice. simpl. apply nth_In.
  apply Nat.mod_upper_bound. destruct seq; [contradiction | simpl; lia].
Qed.

Lemma append_nonempty (a b : string) c : a +:+ String c b <> "".
Proof. destruct a; discriminate. Qed.

Lemma pick_prompts_loop_spec E n w :
  length (pick_prompts_loop E n w).1 = n /\
  Forall (fun prompt => prompt <> "" /\ assembled prompt) (pick_prompts_loop E n w).1.
Proof.
  revert w. induction n as [|n IH]; intros w; [split; [reflexivity | constructor]|].
  cbn [pick_prompts_loop].
  destruct (random_choice E styles w) as [style w1] eqn:H1.
  destruct (random_choice E subjects w1) as [subject w2] eqn:H2.
  destruct (random_choice E lighting w2) as [light w3] eqn:H3.
  specialize (IH w3). destruct (pick_prompts_loop E n w3) as [rest w4].
  simpl in IH |- *. destruct IH as [IHlen IHall]. split; [rewrite IHlen; reflexivity|].
  constructor; [|exact IHall]. split.
  - apply (append_nonempty style).
  - exists style, subject, light. repeat split.
    + change style with (style, w1).1. rewrite <- H1. apply random_choice_in. discriminate.
    + change subject with (subject, w2).1. rewrite <- H2. apply random_choice_in. discriminate.
    + change light with (light, w3).1. rewrite <- H3. apply random_choice_in. discriminate.
Qed.

Example select_prompts_red_bicycle :
  (select_prompts demo_env demo_config empty_world).1
  = ["a red bicycle"; "a red bicycle"; "a red bicycle"].
Proof. reflexivity. Qed.

(** C7 fails as it is stated: an empty [--prompt] is a supplied prompt, yet
    the prompt source does not repeat it; it assembles a prompt instead. *)
Lemma empty_prompt_is_not_repeated :
  cfg_prompt empty_prompt_config = Some "" /\
  (select_prompts demo_env empty_prompt_config empty_world).1
  = ["ultra-detailed studio photo of a brutalist lighthouse, neon lighting"] /\
  (select_prompts demo_env empty_prompt_config empty_world).1
  <> replicate (Z.to_nat (cfg_count empty_prompt_config)) "".
Proof. split; [reflexivity|]. split; [reflexivity | discriminate]. Qed.

(** C7, amended. With a non-empty fixed prompt the prompt source yields that
    prompt [N] times, for every count [N], and consumes no randomness; with no
    fixed prompt and [N] in [1,50] it yields [N] non-empty prompts, each of
    the form "<style> of <subject>, <lighting>" with its parts taken from the
    three vocabularies, none of which is empty. *)
Theorem prompt_source_yields_count E config w :
  (forall p, cfg_prompt config = Some p -> p <> "" ->
     select_prompts E config w = (replicate (Z.to_nat (cfg_count config)) p, w) /\
     ((0 <= cfg_count config)%Z ->
      Z.of_nat (length (select_prompts E config w).1) = cfg_count config)) /\
  (cfg_prompt config = None -> (1 <= cfg_count config <= 50)%Z ->
     Z.of_nat (length (select_prompts E config w).1) = cfg_count config /\
     Forall (fun prompt => prompt <> "" /\ assembled prompt)
            (select_prompts E config w).1) /\
  styles <> [] /\ subjects <> [] /\ lighting <> [].
Proof.
  split; [|split; [|repeat split; discriminate]].
  - intros p Hp Hne. unfold select_prompts. rewrite Hp.
    destruct p as [|c p]; [contradiction|]. cbn [truthy]. split; [reflexivity|].
    intros Hc. cbn [fst]. rewrite length_replicate. lia.
  - intros Hp Hc. unfold select_prompts, pick_prompts. rewrite Hp.
    destruct (pick_prompts_loop_spec E (Z.to_nat (cfg_count config)) w) as [Hlen Hall].
    split; [rewrite Hlen; lia | exact Hall].
Qed.

Lemma prompt_source_yields_count_witness :
  cfg_prompt demo_config = Some "a red bicycle" /\
  "a red bicycle" <> "" /\
  select_prompts demo_env demo_config empty_world
  = (replicate 3 "a red bicycle", empty_world).
Proof.
  split; [reflexivity|]. split; [discriminate|].
  destruct (prompt_source_yields_count demo_env demo_config empty_world) as (H & _).
  apply (H "a red bicycle"); [reflexivity | discriminate].
Defined.



(** ** The request parameters *)

Lemma startswith_spec s p : startswith s p = true <-> exists rest, s = p +:+ rest.
Proof.
  unfold startswith. revert s. induction p as [|c p IH]; intros s.
  - split; [intros _; exists s; reflexivity | intros _; destruct s; reflexivity].
  - destruct s as [|d s]; simpl.
    + split; [discriminate | intros [rest H]; discriminate].
    + destruct (Ascii.ascii_dec c d) as [->|Hne].
      * rewrite IH. split; intros [rest H]; exists rest.
        -- rewrite H. reflexivity.
        -- injection H as H. exact H.
      * split; [discriminate | intros [rest H]; injection H as H _; congruence].
Qed.

Lemma build_params_response_format config prompt :
  build_params config prompt !! "response_format"
  = if startswith (cfg_model config) "dall-e" then Some (PStr "b64_json") else None.
Proof.
  unfold build_params. destruct (startswith (cfg_model config) "dall-e").
  - apply lookup_insert_eq.
  - rewrite !lookup_insert_ne by discriminate. apply lookup_empty.
Qed.

Ltac find_key :=
  repeat first [apply lookup_insert_eq | rewrite lookup_insert_ne by discriminate].

Lemma build_params_keys config prompt :
  build_params config prompt !! "model" = Some (PStr (cfg_model config)) /\
  build_params config prompt !! "prompt" = Some (PStr prompt) /\
  build_params config prompt !! "size" = Some (PStr (cfg_size config)) /\
  build_params config prompt !! "quality" = Some (PStr (cfg_quality config)) /\
  build_params config prompt !! "n" = Some (PInt 1).
Proof.
  unfold build_params.
  destruct (startswith (cfg_model config) "dall-e"); repeat split; find_key.
Qed.

Lemma request_image_sends E config out_dir idx prompt w :
  api_calls (request_image E config out_dir idx prompt w).2
  = (idx, build_params config prompt) :: api_calls w.
Proof.
  unfold request_image. cbn [resume].
  destruct (images_generate E idx (build_params config prompt)) as [o msg|data];
    [reflexivity|].
  unfold on_response. destruct data as [| |[|data_item l]]; try reflexivity.
  cbv zeta. destruct (truthy (b64_json data_item)).
  - destruct (b64decode E _); reflexivity.
  - destruct (truthy (url data_item)); [|reflexivity].
    cbn [resume]. destruct (http_get E idx _) as [msg|status_code content];
      [reflexivity|].
    destruct (is_success status_code); reflexivity.
Qed.

Example default_model_no_response_format :
  build_params demo_config "a red bicycle" !! "response_format" = None.
Proof. apply build_params_response_format. Qed.

(** C8. The request carries [response_format = b64_json] exactly when the
    model name starts with "dall-e", that is, when it is "dall-e" followed by
    anything; for every other model the request has no [response_format]
    entry. The other five parameters are always there, and the request a
    fetcher sends, and the one every request of a batch sends, is this one. *)
Theorem response_format_only_for_dall_e config prompt :
  (startswith (cfg_model config) "dall-e" = true
   <-> exists rest, cfg_model config = "dall-e" +:+ rest) /\
  (build_params config prompt !! "response_format" = Some (PStr "b64_json")
   <-> startswith (cfg_model config) "dall-e" = true) /\
  (startswith (cfg_model config) "dall-e" = false ->
   build_params config prompt !! "response_format" = None) /\
  build_params config prompt !! "model" = Some (PStr (cfg_model config)) /\
  build_params config prompt !! "prompt" = Some (PStr prompt) /\
  build_params config prompt !! "size" = Some (PStr (cfg_size config)) /\
  build_params config prompt !! "quality" = Some (PStr (cfg_quality config)) /\
  build_params config prompt !! "n" = Some (PInt 1) /\
  (forall E out_dir idx w,
     api_calls (request_image E config out_dir idx prompt w).2
     = (idx, build_params config prompt) :: api_calls w) /\
  (forall E out_dir prompts schedule w idx params,
     In (idx, params) (api_calls (gather E config out_dir prompts schedule w).2) ->
     In (idx, params) (api_calls w) \/
     exists i p, prompts !! i = Some p /\ idx = S i /\ params = build_params config p).
Proof.
  rewrite build_params_response_format.
  split; [apply startswith_spec|]. split; [|split].
  - destruct (startswith (cfg_model config) "dall-e"); split; congruence.
  - intros ->. reflexivity.
  - pose proof (build_params_keys config prompt) as (Hm & Hp & Hs & Hq & Hn).
    repeat (split; [assumption|]). split.
    + intros E out_dir idx w. apply request_image_sends.
    + intros E out_dir prompts schedule w idx params.
      apply (cons_params _ _ _ _ _ _
               (consistent_gather E config out_dir prompts w schedule)).
Qed.

Lemma response_format_only_for_dall_e_witness :
  startswith "dall-e-3" "dall-e" = true /\
  build_params
    {| cfg_prompt := None; cfg_count := 1; cfg_model := "dall-e-3";
       cfg_size := "1024x1024"; cfg_quality := "hd"; cfg_out_dir := None |}
    "a red bicycle" !! "response_format" = Some (PStr "b64_json") /\
  startswith "gpt-image-1-mini" "dall-e" = false /\
  build_params demo_config "a red bicycle" !! "response_format" = None.
Proof.
  split; [reflexivity|]. split.
  { apply (response_format_only_for_dall_e
             {| cfg_prompt := None; cfg_count := 1; cfg_model := "dall-e-3";
                cfg_size := "1024x1024"; cfg_quality := "hd"; cfg_out_dir := None |}
             "a red bicycle"). reflexivity. }
  split; [reflexivity|].
  destruct (response_format_only_for_dall_e demo_config "a red bicycle")
    as (_ & _ & H & _).
  apply H. reflexivity.
Defined.

(** ** Exit codes *)

Lemma validate_none args :
  validate args = None <-> ~ (1 <= arg_count args <= 50)%Z.
Proof.
  unfold validate.
  destruct ((1 <=? arg_count args)%Z && (arg_count args <=? 50)%Z) eqn:Hb.
  - apply andb_prop in Hb. destruct Hb as [H1 H2].
    apply Z.leb_le in H1, H2. split; [discriminate | lia].
  - split; [|reflexivity]. intros _ [H1 H2].
    apply Z.leb_le in H1, H2. rewrite H1, H2 in Hb. discriminate.
Qed.



(** * Further facts *)

(** ** More on [slugify] *)

Lemma str_length_app (a b : string) :
  String.length (a +:+ b) = String.length a + String.length b.
Proof. induction a as [|c a IH]; simpl; [reflexivity | rewrite IH; reflexivity]. Qed.

Lemma str_app_assoc (a b c : string) : (a +:+ b) +:+ c = a +:+ (b +:+ c).
Proof.
  induction a as [|x a IH]; [reflexivity|].
  change (String x ((a +:+ b) +:+ c) = String x (a +:+ (b +:+ c))).
  rewrite IH. reflexivity.
Qed.

Lemma str_length_of_list (l : list ascii) :
  String.length (string_of_list_ascii l) = length l.
Proof. induction l as [|c l IH]; simpl; [reflexivity | rewrite IH; reflexivity]. Qed.

Lemma str_length_to_list (s : string) :
  length (list_ascii_of_string s) = String.length s.
Proof. induction s as [|c s IH]; simpl; [reflexivity | rewrite IH; reflexivity]. Qed.

Lemma lstrip_length p s : length (lstrip p s) <= length s.
Proof.
  induction s as [|c s IH]; simpl; [lia|]. destruct (p c); simpl; lia.
Qed.

Lemma rstrip_length p s : length (rstrip p s) <= length s.
Proof.
  induction s as [|c s IH]; simpl; [lia|].
  destruct (rstrip p s); [destruct (p c)|]; simpl in *; lia.
Qed.

Lemma strip_length p s : length (strip p s) <= length s.
Proof.
  unfold strip. pose proof (rstrip_length p (lstrip p s)).
  pose proof (lstrip_length p s). lia.
Qed.

Lemma sub_non_az09_length b s : length (sub_non_az09 b s) <= length s.
Proof.
  revert b. induction s as [|c s IH]; intros b; simpl; [lia|].
  destruct (is_az09 c); [|destruct b]; simpl;
    [specialize (IH false) | specialize (IH true) | specialize (IH true)]; lia.
Qed.

Lemma sub_dashes_length s : length (sub_dashes s) <= length s.
Proof.
  induction s as [|c s IH]; [simpl; lia|].
  cbn [sub_dashes]. destruct (is_dash c).
  - destruct s as [|d s']; [simpl; lia|].
    destruct (is_dash d); cbn [length] in *; lia.
  - cbn [length]. lia.
Qed.

Lemma slugify_chars_length x :
  length (slugify_chars x) <= Nat.max (length x) 5.
Proof.
  unfold slugify_chars.
  set (t := strip is_dash (sub_dashes (sub_non_az09 false (strip is_space (map lower_char x))))).
  assert (length t <= length x) as Ht.
  { unfold t.
    pose proof (strip_length is_dash
                  (sub_dashes (sub_non_az09 false (strip is_space (map lower_char x))))).
    pose proof (sub_dashes_length
                  (sub_non_az09 false (strip is_space (map lower_char x)))).
    pose proof (sub_non_az09_length false (strip is_space (map lower_char x))).
    pose proof (strip_length is_space (map lower_char x)).
    rewrite length_map in *. lia. }
  destruct t; simpl in *; lia.
Qed.

Lemma slugify_alphabet x :
  Forall (fun c => is_slug_char c = true) (list_ascii_of_string (slugify x)).
Proof.
  unfold slugify. rewrite list_ascii_of_string_of_list_ascii.
  apply slugify_chars_clean.
Qed.

Lemma slugify_nonempty x : slugify x <> "".
Proof.
  unfold slugify. intros H. apply (f_equal list_ascii_of_string) in H.
  rewrite list_ascii_of_string_of_list_ascii in H.
  destruct (slugify_chars_clean (list_ascii_of_string x)) as [_ Hne]. contradiction.
Qed.

(** A string without two adjacent dashes cannot be cut around ["--"]. *)
Lemma no_double_dash_app (a b : list ascii) :
  no_double_dash (a ++ dash :: dash :: b) = false.
Proof.
  induction a as [|c a IH]; [reflexivity|].
  cbn [app no_double_dash]. rewrite IH. apply andb_false_r.
Qed.


(** X2. The strings [slugify] leaves as they are, are exactly the non-empty
    strings over [[a-z0-9-]] that neither start nor end with a dash and hold
    no two dashes in a row. *)
Theorem slugify_fixed_points (x : string) :
  slugify x = x <-> clean (list_ascii_of_string x) /\ x <> "".
Proof.
  unfold slugify. split.
  - intros H.
    destruct (slugify_chars_clean (list_ascii_of_string x)) as [Hc Hne].
    apply (f_equal list_ascii_of_string) in H.
    rewrite list_ascii_of_string_of_list_ascii in H. rewrite H in Hc, Hne.
    split; [exact Hc|]. intros ->. apply Hne. reflexivity.
  - intros [Hc Hne]. rewrite slugify_chars_fixed.
    + apply string_of_list_ascii_of_string.
    + exact Hc.
    + intros H. apply Hne. destruct x; [reflexivity | discriminate].
Qed.

Lemma slugify_fixed_points_witness : slugify "a-red-bicycle" = "a-red-bicycle".
Proof.
  apply (slugify_fixed_points "a-red-bicycle"). split; [|discriminate].
  split; [repeat constructor | reflexivity | reflexivity | reflexivity].
Defined.

Lemma lower_char_idempotent c : lower_char (lower_char c) = lower_char c.
Proof. all_chars c. Qed.

(** X3. The slug does not see the case of the letters: lowering a text first
    gives the same slug. *)
Theorem slugify_ignores_case (x : string) :
  slugify (string_of_list_ascii (map lower_char (list_ascii_of_string x))) = slugify x.
Proof.
  unfold slugify, slugify_chars. rewrite list_ascii_of_string_of_list_ascii.
  rewrite map_map.
  rewrite (map_ext (fun c => lower_char (lower_char c)) lower_char lower_char_idempotent).
  reflexivity.
Qed.

(** ** More on file names *)

Lemma slug_name_char c : is_slug_char c = true -> is_name_char c = true.
Proof. unfold is_name_char. intros ->. reflexivity. Qed.

Lemma digit_name_char c : is_digit c = true -> is_name_char c = true.
Proof. all_chars c. Qed.

Lemma all_digits_name_chars s :
  all_digits s = true ->
  Forall (fun c => is_name_char c = true) (list_ascii_of_string s).
Proof.
  induction s as [|c s IH]; simpl; [constructor|].
  intros H. apply andb_prop in H. destruct H as [Hc Hs].
  constructor; [apply digit_name_char, Hc | apply IH, Hs].
Qed.

Lemma str_take_Forall (P : ascii -> Prop) n s :
  Forall P (list_ascii_of_string s) -> Forall P (list_ascii_of_string (str_take n s)).
Proof.
  revert s. induction n as [|n IH]; intros s H; [constructor|].
  destruct s as [|c s]; [constructor|]. simpl in *.
  inversion H; subst. constructor; auto.
Qed.

Lemma str_take_nonempty n s : s <> "" -> str_take (S n) s <> "".
Proof. destruct s; [contradiction | discriminate]. Qed.

Lemma filename_name_chars idx prompt :
  Forall (fun c => is_name_char c = true) (list_ascii_of_string (filename idx prompt)).
Proof.
  unfold filename. rewrite !list_ascii_of_string_app. repeat apply Forall_app_2.
  - apply all_digits_name_chars, format_03d_digits.
  - repeat constructor.
  - apply str_take_Forall.
    eapply Forall_impl; [apply slugify_alphabet | intros c; apply slug_name_char].
  - repeat constructor.
Qed.

Lemma filename_no_slash idx prompt :
  ~ In "/"%char (list_ascii_of_string (filename idx prompt)).
Proof.
  intros Hin. pose proof (filename_name_chars idx prompt) as Hall.
  rewrite Forall_forall in Hall. apply list_elem_of_In, Hall in Hin. discriminate.
Qed.

(** X4. A file name is written in [[a-z0-9-.]] only, so it holds no path
    separator and the picture lands in the output directory itself; for an
    index below 1000 it has between 9 and 48 characters. It ends in [.png]. *)
Theorem filename_is_safe idx prompt :
  Forall (fun c => is_name_char c = true) (list_ascii_of_string (filename idx prompt)) /\
  ~ In "/"%char (list_ascii_of_string (filename idx prompt)) /\
  (exists stem, filename idx prompt = stem +:+ ".png") /\
  (idx < 1000 -> 9 <= String.length (filename idx prompt) <= 48).
Proof.
  split; [apply filename_name_chars|]. split; [apply filename_no_slash|]. split.
  - unfold filename.
    exists (format_03d idx +:+ "-" +:+ str_take 40 (slugify prompt)).
    rewrite !str_app_assoc. reflexivity.
  - intros Hidx. unfold filename. rewrite !str_length_app.
    rewrite (format_03d_width idx Hidx).
    destruct (str_take_prefix 40 (slugify prompt)) as [-> _].
    pose proof (slugify_nonempty prompt) as Hne.
    assert (1 <= String.length (slugify prompt)) as Hlen
      by (destruct (slugify prompt); [contradiction | simpl; lia]).
    change (String.length "-") with 1. change (String.length ".png") with 4. lia.
Qed.

Lemma filename_is_safe_witness :
  7 < 1000 /\ 9 <= String.length (filename 7 "a red bicycle") <= 48.
Proof.
  split; [lia|]. apply (filename_is_safe 7 "a red bicycle"). lia.
Defined.

(** ** More on the configuration *)



(** ** More on the image fetcher *)

Lemma truthy_some s : s <> "" -> truthy (Some s) = true.
Proof. destruct s; [contradiction | reflexivity]. Qed.

(** X6. When the answer carries an inline picture that decodes, the fetcher
    saves the decoded bytes under the name of line 143 and returns the item;
    it makes no download, whether or not the answer also carries a link, and
    prints nothing. *)
Theorem inline_picture_is_saved E config out_dir idx prompt w data_item l b64 png :
  images_generate E idx (build_params config prompt)
  = GenReturns (DataList (data_item :: l)) ->
  b64_json data_item = Some b64 -> b64 <> "" -> b64decode E b64 = Some png ->
  (request_image E config out_dir idx prompt w).1
  = Some {| item_prompt := prompt; item_file := filename idx prompt |} /\
  fs (request_image E config out_dir idx prompt w).2
  = <[path_join out_dir (filename idx prompt) := ImageBytes png]> (fs w) /\
  downloads (request_image E config out_dir idx prompt w).2 = downloads w /\
  console (request_image E config out_dir idx prompt w).2 = console w /\
  completed (request_image E config out_dir idx prompt w).2 = S (completed w).
Proof.
  intros Hgen Hb Hne Hdec. unfold request_image. cbn [resume].
  rewrite Hgen. unfold on_response. cbv zeta.
  rewrite Hb, (truthy_some b64 Hne). cbn [default from_option id]. rewrite Hdec.
  repeat split.
Qed.

Lemma inline_picture_is_saved_witness :
  (request_image demo_env demo_config "out" 1 "a red bicycle" empty_world).1
  = Some {| item_prompt := "a red bicycle"; item_file := "001-a-red-bicycle.png" |}.
Proof.
  apply (inline_picture_is_saved demo_env demo_config "out" 1 "a red bicycle" empty_world
           {| b64_json := Some "aGk="; url := None |} [] "aGk=" [Byte.x68; Byte.x69]);
    [reflexivity | reflexivity | discriminate | reflexivity].
Defined.

(** X7. When the answer carries no inline picture (none, or an empty one) but
    a link, the fetcher downloads that link once; if the status is in
    200..299 the body is saved under the name of line 143 and the item is
    returned. *)
Theorem linked_picture_is_downloaded
    E config out_dir idx prompt w data_item l u status_code content :
  images_generate E idx (build_params config prompt)
  = GenReturns (DataList (data_item :: l)) ->
  truthy (b64_json data_item) = false ->
  url data_item = Some u -> u <> "" ->
  http_get E idx u = GetReturns status_code content ->
  (200 <= status_code <= 299)%Z ->
  (request_image E config out_dir idx prompt w).1
  = Some {| item_prompt := prompt; item_file := filename idx prompt |} /\
  fs (request_image E config out_dir idx prompt w).2
  = <[path_join out_dir (filename idx prompt) := ImageBytes content]> (fs w) /\
  downloads (request_image E config out_dir idx prompt w).2 = (idx, u) :: downloads w /\
  console (request_image E config out_dir idx prompt w).2 = console w /\
  completed (request_image E config out_dir idx prompt w).2 = S (completed w).
Proof.
  intros Hgen Hb Hu Hne Hget [H1 H2]. unfold request_image. cbn [resume].
  rewrite Hgen. unfold on_response. cbv zeta.
  rewrite Hb, Hu, (truthy_some u Hne). cbn [default from_option id resume]. rewrite Hget.
  assert (is_success status_code = true) as ->.
  { unfold is_success. apply andb_true_intro. split; apply Z.leb_le; assumption. }
  repeat split.
Qed.

(** A world in which request 3 of the sample environment finds its link
    served. *)
Lemma linked_picture_is_downloaded_witness :
  (200 <= 200 <= 299)%Z /\
  (request_image
     {| env_api_key := Some "sk-demo"; env_base_url := None;
        images_generate := images_generate demo_env;
        http_get := fun _ _ => GetReturns 200 [Byte.x89];
        b64decode := b64decode demo_env; random_draw := random_draw demo_env;
        env_base_dir := "./tmp"; env_now := "now" |}
     demo_config "out" 3 "a red bicycle" empty_world).1
  = Some {| item_prompt := "a red bicycle"; item_file := "003-a-red-bicycle.png" |}.
Proof.
  split; [lia|].
  apply (linked_picture_is_downloaded _ demo_config "out" 3 "a red bicycle" empty_world
           {| b64_json := None; url := Some "https://cdn/3" |} [] "https://cdn/3"
           200%Z [Byte.x89]);
    [reflexivity | reflexivity | reflexivity | discriminate | reflexivity | lia].
Defined.



(** X9. An inline picture that does not decode makes the request fail at
    once: the fetcher does not fall back on the link of the same answer, so
    nothing is downloaded and nothing is written. *)
Theorem undecodable_picture_has_no_fallback
    E config out_dir idx prompt w data_item l b64 :
  images_generate E idx (build_params config prompt)
  = GenReturns (DataList (data_item :: l)) ->
  b64_json data_item = Some b64 -> b64 <> "" -> b64decode E b64 = None ->
  (request_image E config out_dir idx prompt w).1 = None /\
  fs (request_image E config out_dir idx prompt w).2 = fs w /\
  downloads (request_image E config out_dir idx prompt w).2 = downloads w /\
  (exists msg,
     console (request_image E config out_dir idx prompt w).2
     = ErrorFor idx msg :: console w) /\
  completed (request_image E config out_dir idx prompt w).2 = S (completed w).
Proof.
  intros Hgen Hb Hne Hdec. unfold request_image. cbn [resume].
  rewrite Hgen. unfold on_response. cbv zeta.
  rewrite Hb, (truthy_some b64 Hne). cbn [default from_option id]. rewrite Hdec.
  repeat split. eexists. reflexivity.
Qed.

Lemma undecodable_picture_has_no_fallback_witness :
  "%%%" <> "" /\
  downloads (request_image undecodable_env demo_config "out" 1 "a red bicycle"
               empty_world).2 = [].
Proof.
  assert ("%%%" <> "") as Hne by discriminate.
  split; [exact Hne|].
  destruct (undecodable_picture_has_no_fallback
              undecodable_env demo_config "out" 1 "a red bicycle" empty_world
              {| b64_json := Some "%%%"; url := Some "https://cdn/1" |} [] "%%%"
              eq_refl eq_refl Hne eq_refl)
    as (_ & _ & H & _).
  exact H.
Defined.

(** X10. An answer whose [data] is [None] or an empty list is an ordinary
    failure: caught, reported with the index of the request, counted as one
    unit of progress. An answer without a [data] entry is read as an answer
    without a picture. Nothing is written in any of the three cases. *)
Theorem malformed_answer_is_caught E config out_dir idx prompt w data :
  images_generate E idx (build_params config prompt) = GenReturns data ->
  data = DataNone \/ data = DataList [] \/ data = DataAbsent ->
  (request_image E config out_dir idx prompt w).1 = None /\
  fs (request_image E config out_dir idx prompt w).2 = fs w /\
  downloads (request_image E config out_dir idx prompt w).2 = downloads w /\
  (data <> DataAbsent ->
   (exists msg,
      console (request_image E config out_dir idx prompt w).2
      = ErrorFor idx msg :: console w) /\
   completed (request_image E config out_dir idx prompt w).2 = S (completed w)) /\
  (data = DataAbsent ->
   console (request_image E config out_dir idx prompt w).2
   = NoImageData (str_take 20 prompt) :: console w /\
   completed (request_image E config out_dir idx prompt w).2 = completed w).
Proof.
  intros Hgen Hdata. unfold request_image. cbn [resume]. rewrite Hgen.
  unfold on_response.
  destruct Hdata as [-> | [-> | ->]]; cbv zeta; cbn [fst snd].
  - repeat split; try discriminate. eexists. reflexivity.
  - repeat split; try discriminate. eexists. reflexivity.
  - repeat split; try reflexivity; congruence.
Qed.

Lemma malformed_answer_is_caught_witness :
  (request_image
     {| env_api_key := Some "sk-demo"; env_base_url := None;
        images_generate := fun _ _ => GenReturns (DataList []);
        http_get := fun _ _ => GetRaises "unreachable";
        b64decode := fun _ => None; random_draw := fun n => n;
        env_base_dir := "./tmp"; env_now := "now" |}
     demo_config "out" 1 "a red bicycle" empty_world).1 = None.
Proof.
  apply (malformed_answer_is_caught
           {| env_api_key := Some "sk-demo"; env_base_url := None;
              images_generate := fun _ _ => GenReturns (DataList []);
              http_get := fun _ _ => GetRaises "unreachable";
              b64decode := fun _ => None; random_draw := fun n => n;
              env_base_dir := "./tmp"; env_now := "now" |}
           demo_config "out" 1 "a red bicycle" empty_world (DataList []));
    [reflexivity | right; left; reflexivity].
Defined.

(** What one request prints: one line when it fails, nothing when it
    succeeds. *)
Lemma request_image_console E config out_dir idx prompt w :
  length (console (request_image E config out_dir idx prompt w).2)
  = length (console w)
    + match outcome E config idx prompt with Some _ => 0 | None => 1 end.
Proof.
  rewrite <- (request_image_outcome E config out_dir idx prompt w).
  unfold request_image. cbn [resume].
  destruct (images_generate E idx (build_params config prompt)) as [o msg|data];
    [simpl; lia|].
  unfold on_response. destruct data as [| |[|data_item l]]; try (simpl; lia).
  cbv zeta. destruct (truthy (b64_json data_item)).
  - destruct (b64decode E _); simpl; lia.
  - destruct (truthy (url data_item)); [|simpl; lia].
    cbn [resume]. destruct (http_get E idx _) as [msg|status_code content];
      [simpl; lia|].
    destruct (is_success status_code); simpl; lia.
Qed.

(** How many downloads one request makes: one when the answer has a link and
    no inline picture, none otherwise. *)
Lemma request_image_downloads E config out_dir idx prompt w :
  length (downloads (request_image E config out_dir idx prompt w).2)
  = length (downloads w) + (if needs_download E config idx prompt then 1 else 0).
Proof.
  unfold request_image, needs_download. cbn [resume].
  destruct (images_generate E idx (build_params config prompt)) as [o msg|data];
    [simpl; lia|].
  unfold on_response. destruct data as [| |[|data_item l]]; try (simpl; lia).
  cbv zeta. destruct (truthy (b64_json data_item)).
  - destruct (b64decode E _); simpl; lia.
  - destruct (truthy (url data_item)); [|simpl; lia].
    cbn [resume]. destruct (http_get E idx _) as [msg|status_code content];
      [simpl; lia|].
    destruct (is_success status_code); simpl; lia.
Qed.

(** ** Counters of the world across a batch *)

Lemma sum_list_cons (x : nat) (l : list nat) : sum_list (x :: l) = x + sum_list l.
Proof. reflexivity. Qed.

Lemma sum_imap_zero {A} (f : nat -> A -> nat) (l : list A) :
  (forall i x, f i x = 0) -> sum_list (imap f l) = 0.
Proof.
  revert f. induction l as [|x l IH]; intros f Hf; [reflexivity|].
  rewrite imap_cons, sum_list_cons, Hf, IH; [reflexivity|].
  intros i y. apply Hf.
Qed.

(** Changing one term of a sum changes the sum by as much. *)
Lemma sum_imap_update {A} (f g : nat -> A -> nat) (l : list A) j x d :
  l !! j = Some x ->
  (forall i y, l !! i = Some y -> i <> j -> g i y = f i y) ->
  g j x = f j x + d ->
  sum_list (imap g l) = sum_list (imap f l) + d.
Proof.
  revert f g j. induction l as [|y l IH]; intros f g j Hj Hother Hat; [discriminate|].
  rewrite !imap_cons, !sum_list_cons. destruct j as [|j].
  - injection Hj as ->. rewrite Hat.
    rewrite (imap_ext (g ∘ S) (f ∘ S) l); [lia|].
    intros i z Hz. apply (Hother (S i) z Hz). discriminate.
  - rewrite (Hother 0 y eq_refl) by discriminate.
    rewrite (IH (f ∘ S) (g ∘ S) j Hj); [lia | | exact Hat].
    intros i z Hz Hne. apply (Hother (S i) z Hz). congruence.
Qed.

Lemma sum_imap_indicator_from (b : nat * string -> bool) (f : nat -> nat)
    (prompts : list string) :
  sum_list (imap (fun i p => if b (f i, p) then 1 else 0) prompts)
  = length (List.filter b (imap (fun i p => (f i, p)) prompts)).
Proof.
  revert f. induction prompts as [|p l IH]; intros f; [reflexivity|].
  specialize (IH (fun i => f (S i))).
  rewrite !imap_cons, sum_list_cons. unfold compose. rewrite IH.
  cbn [List.filter]. destruct (b (f 0, p)); reflexivity.
Qed.

Lemma sum_imap_indicator (b : nat * string -> bool) (prompts : list string) :
  sum_list (imap (fun i p => if b (S i, p) then 1 else 0) prompts)
  = length (List.filter b (enumerate prompts)).
Proof. apply sum_imap_indicator_from. Qed.

Section Additive.

Context (E : Env) (config : AppConfig) (out_dir : string) (prompts : list string).
Context (m : World -> nat) (mu : Action -> nat).
Hypothesis additive : forall idx a w, m (perform out_dir idx a w) = m w + mu a.

Lemma mu_idle : mu Idle = 0.
Proof. pose proof (additive 0 Idle empty_world) as H. simpl in H. lia. Qed.

Lemma cumulative_stable idx prompt n :
  3 <= n -> cumulative mu E config idx prompt n = cumulative mu E config idx prompt 3.
Proof.
  induction n as [|n IH]; [lia|]. intros Hn.
  destruct (decide (n = 2)) as [->|Hne]; [reflexivity|].
  remember (cumulative mu E config idx prompt 3) as c3 eqn:Hc3.
  cbn [cumulative]. rewrite IH by lia.
  rewrite (after_stable E config idx prompt n) by lia.
  destruct (after_3_returned E config idx prompt) as [r ->].
  cbn [action]. rewrite mu_idle. lia.
Qed.

(** A request on its own raises the counter by the sum over its three
    resumptions. *)
Lemma request_image_measure idx prompt w :
  m (request_image E config out_dir idx prompt w).2
  = m w + cumulative mu E config idx prompt 3.
Proof.
  unfold request_image. rewrite !resume_factor. cbn [snd].
  rewrite !additive. cbn [cumulative]. unfold after. simpl. lia.
Qed.

Lemma run_measure l w :
  m (run_schedule E config out_dir prompts l (replicate (length prompts) Created, w)).2
  = m w
    + sum_list (imap (fun i p => cumulative mu E config (S i) p
                                   (count_occ Nat.eq_dec l i)) prompts).
Proof.
  induction l as [|j l IH] using rev_ind.
  - simpl. rewrite sum_imap_zero; [lia | reflexivity].
  - rewrite run_schedule_app.
    set (st := run_schedule E config out_dir prompts l
                 (replicate (length prompts) Created, w)) in *.
    change (run_schedule E config out_dir prompts [j] st)
      with (resume_nth E config out_dir prompts j st).
    assert (length st.1 = length prompts) as Hlen
      by (unfold st; rewrite run_schedule_length; apply length_replicate).
    destruct (resume_nth_cases E config out_dir prompts j st)
      as [[Hout ->] | (p & c & Hp & Hc & ->)].
    + rewrite IH. f_equal. f_equal. apply imap_ext. intros i q Hq.
      rewrite count_occ_app. simpl.
      destruct (Nat.eq_dec j i) as [->|_]; [|f_equal; lia].
      exfalso. destruct Hout as [Hout | Hout]; [congruence|].
      apply lookup_ge_None in Hout. apply lookup_lt_Some in Hq. lia.
    + cbn [snd]. rewrite additive, IH.
      assert (c = after E config (S j) p (count_occ Nat.eq_dec l j)) as ->.
      { unfold st in Hc.
        rewrite (run_schedule_lookup E config out_dir prompts l j p _ Hp) in Hc.
        simpl in Hc. rewrite lookup_replicate_2 in Hc by (eapply lookup_lt_Some, Hp).
        simpl in Hc. injection Hc as <-. reflexivity. }
      rewrite <- Nat.add_assoc. f_equal. symmetry.
      apply (sum_imap_update _ _ prompts j p); [exact Hp | |].
      * intros i q Hq Hne. rewrite count_occ_app. simpl.
        destruct (Nat.eq_dec j i); [congruence | f_equal; lia].
      * rewrite count_occ_app. simpl.
        destruct (Nat.eq_dec j j); [|congruence].
        rewrite Nat.add_1_r. reflexivity.
Qed.

(** Whatever the interleaving, the batch raises the counter by the sum of
    what its requests raise it by on their own. *)
Lemma gather_measure schedule w :
  m (gather E config out_dir prompts schedule w).2
  = m w + sum_list (imap (fun i p => cumulative mu E config (S i) p 3) prompts).
Proof.
  unfold gather, gather_state. cbn [snd]. rewrite run_measure. f_equal. f_equal.
  apply imap_ext. intros i p Hp. apply cumulative_stable.
  rewrite !count_occ_app.
  pose proof (round_count prompts i (lookup_lt_Some _ _ _ Hp)). lia.
Qed.

End Additive.

Lemma gather_completed E config out_dir prompts schedule w :
  completed (gather E config out_dir prompts schedule w).2
  = completed w
    + length (List.filter (fun r => negb (no_picture E config r.1 r.2))
                          (enumerate prompts)).
Proof.
  assert (forall idx a w1,
            completed (perform out_dir idx a w1) = completed w1 + units_of a) as Hadd
    by (intros idx a w1; destruct a; simpl; lia).
  rewrite (gather_measure E config out_dir prompts completed units_of Hadd).
  f_equal. rewrite <- sum_imap_indicator. f_equal. apply imap_ext. intros i p _.
  cbn [fst snd].
  pose proof (request_image_measure E config out_dir completed units_of Hadd
                (S i) p empty_world) as H1.
  pose proof (request_image_progress E config out_dir (S i) p empty_world) as H2.
  destruct (no_picture E config (S i) p); simpl in *; lia.
Qed.

Lemma gather_console E config out_dir prompts schedule w :
  length (console (gather E config out_dir prompts schedule w).2)
  = length (console w) + length (List.filter (fails E config) (enumerate prompts)).
Proof.
  assert (forall idx a w1,
            length (console (perform out_dir idx a w1))
            = length (console w1) + lines_of a) as Hadd
    by (intros idx a w1; destruct a; simpl; lia).
  rewrite (gather_measure E config out_dir prompts
             (fun w1 => length (console w1)) lines_of Hadd).
  f_equal. rewrite <- sum_imap_indicator. f_equal. apply imap_ext. intros i p _.
  pose proof (request_image_measure E config out_dir
                (fun w1 => length (console w1)) lines_of Hadd
                (S i) p empty_world) as H1.
  pose proof (request_image_console E config out_dir (S i) p empty_world) as H2.
  unfold fails. cbn [fst snd] in *.
  destruct (outcome E config (S i) p); simpl in *; lia.
Qed.

Lemma gather_downloads E config out_dir prompts schedule w :
  length (downloads (gather E config out_dir prompts schedule w).2)
  = length (downloads w)
    + length (List.filter (fun r => needs_download E config r.1 r.2)
                          (enumerate prompts)).
Proof.
  assert (forall idx a w1,
            length (downloads (perform out_dir idx a w1))
            = length (downloads w1) + gets_of a) as Hadd
    by (intros idx a w1; destruct a; simpl; lia).
  rewrite (gather_measure E config out_dir prompts
             (fun w1 => length (downloads w1)) gets_of Hadd).
  f_equal. rewrite <- sum_imap_indicator. f_equal. apply imap_ext. intros i p _.
  pose proof (request_image_measure E config out_dir
                (fun w1 => length (downloads w1)) gets_of Hadd
                (S i) p empty_world) as H1.
  pose proof (request_image_downloads E config out_dir (S i) p empty_world) as H2.
  cbn [fst snd] in *.
  destruct (needs_download E config (S i) p); simpl in *; lia.
Qed.




(** ** The interleaving does not matter *)

Lemma gather_fs_lookup E config out_dir prompts schedule w path :
  fs (gather E config out_dir prompts schedule w).2 !! path
  = match List.find (owns E config out_dir path) (enumerate prompts) with
    | Some r => ImageBytes <$> image_data E config r.1 r.2
    | None => fs w !! path
    end.
Proof.
  pose proof (consistent_gather E config out_dir prompts w schedule) as Hc.
  unfold gather. cbn [snd].
  destruct (List.find (owns E config out_dir path) (enumerate prompts)) as [r|] eqn:Hf.
  - apply find_some in Hf. destruct Hf as [Hin Hb].
    apply list_elem_of_In, enumerate_elem in Hin. destruct Hin as (i & Hi & Hp).
    destruct r as [idx p]. cbn [fst snd] in *. subst idx.
    unfold owns in Hb. cbn [fst snd] in Hb. apply andb_prop in Hb.
    destruct Hb as [Hs Heq]. apply String.eqb_eq in Heq. subst path.
    apply (cons_written _ _ _ _ _ _ Hc i p (after E config (S i) p 3) Hp);
      [apply gather_state_lookup, Hp | exact Hs].
  - apply (cons_kept _ _ _ _ _ _ Hc). intros i p c Hp Hcs Hs Heq.
    rewrite (gather_state_lookup E config out_dir prompts schedule w i p Hp) in Hcs.
    injection Hcs as <-.
    pose proof (find_none _ _ Hf (S i, p)) as Hnone.
    assert (owns E config out_dir path (S i, p) = true) as Hown.
    { unfold owns. cbn [fst snd]. apply andb_true_intro.
      split; [exact Hs | apply String.eqb_eq; exact Heq]. }
    rewrite Hnone in Hown; [discriminate|].
    apply list_elem_of_In, enumerate_lookup, Hp.
Qed.

Lemma gather_dirs E config out_dir prompts schedule w :
  dirs (gather E config out_dir prompts schedule w).2 = dirs w.
Proof.
  apply (cons_dirs _ _ _ _ _ _ (consistent_gather E config out_dir prompts w schedule)).
Qed.

Lemma gather_rng E config out_dir prompts schedule w :
  rng_pos (gather E config out_dir prompts schedule w).2 = rng_pos w.
Proof.
  apply (cons_rng _ _ _ _ _ _ (consistent_gather E config out_dir prompts w schedule)).
Qed.

Lemma gather_call_counts E config out_dir prompts schedule w n :
  count_occ Nat.eq_dec (map fst (api_calls (gather E config out_dir prompts schedule w).2)) n
  = count_occ Nat.eq_dec (map fst (api_calls w)) n
    + (if decide (1 <= n <= length prompts) then 1 else 0).
Proof.
  unfold gather. cbn [snd].
  rewrite (cons_calls _ _ _ _ _ _ (consistent_gather E config out_dir prompts w schedule)).
  f_equal. destruct n as [|i]; cbn [started].
  - rewrite decide_False by lia. reflexivity.
  - destruct (decide (1 <= S i <= length prompts)) as [Hin|Hout].
    + destruct (lookup_lt_is_Some_2 prompts i) as [p Hp]; [lia|].
      rewrite (gather_state_lookup E config out_dir prompts schedule w i p Hp).
      destruct (after_3_returned E config (S i) p) as [r ->]. reflexivity.
    + rewrite (lookup_ge_None_2 (gather_state E config out_dir prompts schedule w).1 i);
        [reflexivity|].
      rewrite gather_state_length. lia.
Qed.


(** The order of the printed lines, by contrast, follows the interleaving. *)
Example console_order_follows_schedule :
  console (gather failing_env demo_config "out" demo_prompts [] empty_world).2
  <> console (gather failing_env demo_config "out" demo_prompts [2; 2] empty_world).2.
Proof. vm_compute. discriminate. Qed.

(** ** A whole run *)

Lemma random_choice_calls E seq w : api_calls (random_choice E seq w).2 = api_calls w.
Proof. reflexivity. Qed.

Lemma pick_prompts_loop_world E n w :
  (pick_prompts_loop E n w).2
  = {| fs := fs w; dirs := dirs w; console := console w;
       description := description w; total := total w; completed := completed w;
       api_calls := api_calls w; downloads := downloads w;
       rng_pos := rng_pos w + 3 * n |}.
Proof.
  revert w. induction n as [|n IH]; intros w.
  - destruct w. simpl. f_equal. lia.
  - cbn [pick_prompts_loop]. unfold random_choice at 1 2 3. cbn [fst snd].
    match goal with |- context [pick_prompts_loop E n ?w3] =>
      specialize (IH w3); destruct (pick_prompts_loop E n w3) as [rest w4] end.
    cbn [snd] in IH |- *. rewrite IH. simpl. f_equal. lia.
Qed.

Lemma pick_prompts_loop_length E n w : length (pick_prompts_loop E n w).1 = n.
Proof. apply pick_prompts_loop_spec. Qed.

(** X15. [pick_prompts(count)] returns [count] prompts ([] when the count is
    not positive), draws exactly three random numbers per prompt and changes
    nothing else; the prompts depend on nothing but those draws. *)
Theorem pick_prompts_draws E count w :
  length (pick_prompts E count w).1 = Z.to_nat count /\
  ((count <= 0)%Z -> pick_prompts E count w = ([], w)) /\
  rng_pos (pick_prompts E count w).2 = rng_pos w + 3 * Z.to_nat count /\
  fs (pick_prompts E count w).2 = fs w /\
  dirs (pick_prompts E count w).2 = dirs w /\
  console (pick_prompts E count w).2 = console w /\
  api_calls (pick_prompts E count w).2 = api_calls w /\
  (forall E' w',
     rng_pos w' = rng_pos w ->
     (forall k, rng_pos w <= k < rng_pos w + 3 * Z.to_nat count ->
                random_draw E' k = random_draw E k) ->
     (pick_prompts E' count w').1 = (pick_prompts E count w).1).
Proof.
  unfold pick_prompts. rewrite pick_prompts_loop_world. cbn [rng_pos fs dirs console api_calls].
  split; [apply pick_prompts_loop_length|].
  split.
  { intros Hc. replace (Z.to_nat count) with 0 by lia. reflexivity. }
  repeat (split; [reflexivity|]).
  generalize (Z.to_nat count) as n. intros n. revert w.
  induction n as [|n IH]; intros w E' w' Hpos Hdraw; [reflexivity|].
  cbn [pick_prompts_loop]. unfold random_choice at 1 2 3 4 5 6. cbn [fst snd rng_pos].
  match goal with
  | |- context [pick_prompts_loop E' n ?a] =>
      match goal with
      | |- context [pick_prompts_loop E n ?b] =>
          specialize (IH b E' a);
          destruct (pick_prompts_loop E' n a) as [rest' wa];
          destruct (pick_prompts_loop E n b) as [rest wb]
      end
  end.
  cbn [fst snd rng_pos] in IH |- *.
  rewrite Hpos, !Hdraw by lia. f_equal. apply IH; [rewrite Hpos; reflexivity|].
  intros k Hk. apply Hdraw. lia.
Qed.

Lemma pick_prompts_draws_witness :
  (0 <= 0)%Z /\ pick_prompts demo_env 0 empty_world = ([], empty_world).
Proof.
  split; [lia|]. apply (pick_prompts_draws demo_env 0 empty_world). lia.
Defined.

(** ** What a whole run does *)

Lemma select_prompts_length E config w :
  length (select_prompts E config w).1 = Z.to_nat (cfg_count config).
Proof.
  unfold select_prompts, pick_prompts.
  destruct (cfg_prompt config) as [p|]; [destruct (truthy (Some p))|];
    try apply pick_prompts_loop_length.
  apply length_replicate.
Qed.

(** Choosing the prompts touches nothing but the random source. *)
Lemma select_prompts_world E config w :
  fs (select_prompts E config w).2 = fs w /\
  dirs (select_prompts E config w).2 = dirs w /\
  console (select_prompts E config w).2 = console w /\
  api_calls (select_prompts E config w).2 = api_calls w /\
  downloads (select_prompts E config w).2 = downloads w.
Proof.
  unfold select_prompts, pick_prompts.
  destruct (cfg_prompt config) as [p|]; [destruct (truthy (Some p))|];
    try rewrite pick_prompts_loop_world; repeat split.
Qed.

Lemma prepare_output_world E config w :
  fs (prepare_output E config w).2 = fs w /\
  console (prepare_output E config w).2
  = OutputDirectory (prepare_output E config w).1 :: console w /\
  api_calls (prepare_output E config w).2 = api_calls w /\
  downloads (prepare_output E config w).2 = downloads w.
Proof. unfold prepare_output. destruct (cfg_out_dir config); repeat split. Qed.

Lemma perform_total out_dir idx a w : total (perform out_dir idx a w) = total w.
Proof. destruct a; reflexivity. Qed.

Lemma gather_total E config out_dir prompts schedule w :
  total (gather E config out_dir prompts schedule w).2 = total w.
Proof.
  unfold gather, gather_state. cbn [snd].
  apply (run_schedule_preserves E config out_dir prompts
           (fun st => total st.2 = total w)); [|reflexivity].
  intros i st Hst.
  destruct (resume_nth_cases E config out_dir prompts i st)
    as [[_ ->] | (p & c & _ & _ & ->)]; [exact Hst|].
  cbn [snd]. rewrite perform_total. exact Hst.
Qed.

(** The lines a batch prints are put in front of those already there. *)
Lemma gather_console_prefix E config out_dir prompts schedule w :
  exists lines,
    console (gather E config out_dir prompts schedule w).2 = (lines ++ console w)%list.
Proof.
  unfold gather, gather_state. cbn [snd].
  apply (run_schedule_preserves E config out_dir prompts
           (fun st => exists lines, console st.2 = (lines ++ console w)%list));
    [|exists []; reflexivity].
  intros i st [lines Hst].
  destruct (resume_nth_cases E config out_dir prompts i st)
    as [[_ ->] | (p & c & _ & _ & ->)]; [exists lines; exact Hst|].
  cbn [snd]. destruct (action E config (S i) p c); cbn [perform];
    try (exists lines; exact Hst).
  - eexists (_ :: lines). simpl. rewrite Hst. reflexivity.
  - eexists (_ :: lines). simpl. rewrite Hst. reflexivity.
Qed.

(** The run of [async_main] once the key is there and the arguments are
    valid, with its parts named. *)
Lemma async_main_parts E args schedule w key config :
  env_api_key E = Some key -> validate args = Some config ->
  let out_dir := (prepare_output E config w).1 in
  let w2 := (prepare_output E config w).2 in
  let prompts := (select_prompts E config w2).1 in
  let w3 := (select_prompts E config w2).2 in
  let g := gather E config out_dir prompts schedule
             (add_task "Generating images..." (length prompts) w3) in
  async_main E args schedule w
  = (0%Z,
     print (GalleryCreated (path_join out_dir "index.html"))
       (write_gallery out_dir (successes g.1)
          (write_file (path_join out_dir "prompts.json")
             (ManifestJson (successes g.1)) g.2))).
Proof.
  intros Hk Hv. rewrite (async_main_success _ _ _ _ _ _ Hk Hv).
  destruct (prepare_output E config w) as [out_dir w2].
  cbn [fst snd]. destruct (select_prompts E config w2) as [prompts w3].
  cbn [fst snd]. unfold run_batch.
  destruct (gather E config out_dir prompts schedule _) as [results w5].
  reflexivity.
Qed.

Lemma validate_count args config :
  validate args = Some config ->
  cfg_count config = arg_count args /\ (1 <= arg_count args <= 50)%Z /\
  cfg_out_dir config
  = (if decide (arg_out_dir args = "") then None else Some (arg_out_dir args)).
Proof.
  unfold validate.
  destruct ((1 <=? arg_count args)%Z && (arg_count args <=? 50)%Z) eqn:Hb;
    [|discriminate].
  intros Hv. injection Hv as <-. cbn [cfg_count cfg_out_dir].
  apply andb_prop in Hb. destruct Hb as [H1 H2]. apply Z.leb_le in H1, H2.
  split; [reflexivity|]. split; [lia|].
  destruct (arg_out_dir args); reflexivity.
Qed.









(** ** The keys of a request *)

(** X20. A generation request carries the keys [model], [prompt], [size],
    [quality] and [n], with [response_format] added for a model whose name
    starts with "dall-e", and no other key; it always asks for one image. *)
Theorem request_has_no_other_parameter config prompt :
  dom (build_params config prompt)
  = (if startswith (cfg_model config) "dall-e"
     then {["response_format"]} ∪ {["n"; "quality"; "size"; "prompt"; "model"]}
     else {["n"; "quality"; "size"; "prompt"; "model"]} : gset string) /\
  build_params config prompt !! "n" = Some (PInt 1) /\
  (forall key,
     is_Some (build_params config prompt !! key) ->
     key = "model" \/ key = "prompt" \/ key = "size" \/ key = "quality" \/ key = "n" \/
     (key = "response_format" /\ startswith (cfg_model config) "dall-e" = true)).
Proof.
  assert (dom (build_params config prompt)
          = (if startswith (cfg_model config) "dall-e"
             then {["response_format"]} ∪ {["n"; "quality"; "size"; "prompt"; "model"]}
             else {["n"; "quality"; "size"; "prompt"; "model"]} : gset string)) as Hdom.
  { unfold build_params. destruct (startswith (cfg_model config) "dall-e");
      rewrite !dom_insert_L, dom_empty_L; set_solver. }
  split; [exact Hdom|]. split; [apply build_params_keys|].
  intros key Hkey. apply elem_of_dom in Hkey. rewrite Hdom in Hkey.
  destruct (startswith (cfg_model config) "dall-e");
    rewrite ?elem_of_union, ?elem_of_singleton in Hkey; intuition auto.
Qed.

Lemma request_has_no_other_parameter_witness :
  is_Some (build_params demo_config "a red bicycle" !! "n") /\
  "n" <> "response_format".
Proof.
  split; [|discriminate].
  destruct (request_has_no_other_parameter demo_config "a red bicycle") as (_ & H & _).
  rewrite H. eexists. reflexivity.
Defined.
